(** * The game RPCs of Xaya: chain walk and the sendupdates worker

    A shallow embedding of [src/rpc/game.cpp] and [src/rpc/game.h]:
    the walk [GetDetachSequence] over the block index, the RPCs
    [game_sendupdates] and [trackedgames], and the background worker
    [SendUpdatesWorker] with its queue, its interrupted flag and its
    runner thread.  The code is that of a build with [ENABLE_ZMQ].

    Threads are modelled by interleaving: what a thread does between
    taking and releasing [csWork] is one atomic action, and so is one
    call of [SendUpdatesOneBlock] made outside the lock. *)

From stdpp Require Import base option list gmap sets strings pretty sorting.

Open Scope string_scope.
Open Scope list_scope.

(** ** Outcomes of a C++ call *)

(** The error codes passed to [JSONRPCError] in this file. *)
Inductive RPCErrorCode :=
| RPC_MISC_ERROR
| RPC_INVALID_ADDRESS_OR_KEY
| RPC_DATABASE_ERROR
| RPC_INVALID_PARAMETER.

(** A call returns, throws [JSONRPCError (code, msg)], trips an [assert],
    dereferences a pointer to no object, or (for the loops bounded by
    fuel in this model) is cut off. *)
Inductive outcome (A : Type) :=
| Returns (a : A)
| Throws (code : RPCErrorCode) (msg : string)
| AssertionFailed
| InvalidDeref
| OutOfFuel.

Arguments Returns {A} a.
Arguments Throws {A} code msg.
Arguments AssertionFailed {A}.
Arguments InvalidDeref {A}.
Arguments OutOfFuel {A}.

#[global] Instance outcome_ret : MRet outcome := fun A a => Returns a.

#[global] Instance outcome_bind : MBind outcome := fun A B k m =>
  match m with
  | Returns a => k a
  | Throws code msg => Throws code msg
  | AssertionFailed => AssertionFailed
  | InvalidDeref => InvalidDeref
  | OutOfFuel => OutOfFuel
  end.

(** ** The block index *)

(** [uint256] block hashes. *)
Abbreviation uint256 := N (only parsing).

(** A [const CBlockIndex*]: [None] is [nullptr], [Some a] the object at
    address [a]. *)
Abbreviation CBlockIndexPtr := (option positive) (only parsing).

(** The fields of [CBlockIndex] that this file reads. *)
Record CBlockIndex := {
  phashBlock : uint256;          (* GetBlockHash () *)
  pprev : CBlockIndexPtr;
  nStatus : N
}.

(** A serialised block, as read from disk. *)
Record CBlock := { blockData : N }.

(** Declarations of the repository used here but kept in other files:
    the status bit of [chain.h] and the ancestor search of [chain.cpp]. *)
Class External := {
  BLOCK_HAVE_DATA : N;
  LastCommonAncestor :
    gmap positive CBlockIndex -> positive -> positive -> CBlockIndexPtr
}.

Section ChainWalk.
Context `{Ext : External}.

(** [pindex->nStatus & BLOCK_HAVE_DATA], as a truth value. *)
Definition have_data (bi : CBlockIndex) : bool :=
  negb (N.land (nStatus bi) BLOCK_HAVE_DATA =? 0)%N.

(** The [for] loop of [GetDetachSequence]: [pindex] is the loop variable
    and [detach] the vector built so far.  The walk reads one state
    [idx] of the block index (the source takes [cs_main] anew for each
    block). *)
Fixpoint GetDetachSequence_loop (fuel : nat) (idx : gmap positive CBlockIndex)
    (pindex ancestor : CBlockIndexPtr) (detach : list positive)
    : outcome (list positive) :=
  if decide (pindex = ancestor) then Returns detach
  else
    match fuel with
    | O => OutOfFuel
    | S fuel' =>
        match pindex with
        | None => AssertionFailed
        | Some a =>
            match idx !! a with
            | None => InvalidDeref
            | Some bi =>
                if have_data bi
                then GetDetachSequence_loop fuel' idx (pprev bi) ancestor
                       (detach ++ [a])
                else Throws RPC_DATABASE_ERROR "detached block has no data"
            end
        end
    end.

Definition GetDetachSequence (fuel : nat) (idx : gmap positive CBlockIndex)
    (from ancestor : CBlockIndexPtr) : outcome (list positive) :=
  GetDetachSequence_loop fuel idx from ancestor [].

End ChainWalk.

(** ** The sendupdates worker *)

(** [SendUpdatesWorker::Work]. *)
Record Work := {
  reqtoken : string;
  detach : list positive;
  attach : list positive;
  trackedGames : gset string
}.

(** [ZMQGameBlocksNotifier::PREFIX_DETACH] and [PREFIX_ATTACH]. *)
Inductive CommandPrefix := PREFIX_DETACH | PREFIX_ATTACH.

(** What the code of this file does to the outside: the [LogPrint] lines
    (kept structured: the block or work item whose text the line prints)
    and the calls of [ZMQGameBlocksNotifier::SendBlockNotifications]. *)
Inductive IO :=
| LogReadFailed (pindex : positive)
| LogQueueEmpty (flag : bool)
| LogWaiting
| LogPopped (w : Work)
| LogFinished (w : Work)
| LogNotEnqueueing (w : Work)
| LogEnqueueing (w : Work)
| SendBlockNotifications (games : gset string) (prefix : CommandPrefix)
    (token : string) (blk : CBlock) (pindex : positive).

(** The notifier object holds the set of tracked games. *)
Record ZMQGameBlocksNotifier := { tracked : gset string }.

(** [CZMQNotificationInterface]: [GetGameBlocksNotifier ()] may be null. *)
Record CZMQNotificationInterface := {
  gameBlocksNotifier : option ZMQGameBlocksNotifier
}.

Definition GetGameBlocksNotifier (zmq : option CZMQNotificationInterface)
    : outcome ZMQGameBlocksNotifier :=
  match zmq with
  | None => Throws RPC_MISC_ERROR "ZMQ notifications are disabled"
  | Some iface =>
      match gameBlocksNotifier iface with
      | None => Throws RPC_MISC_ERROR "-zmqpubgameblocks is not set"
      | Some notifier => Returns notifier
      end
  end.

(** [SendUpdatesOneBlock]; [ReadBlockFromDisk] answers [None] when the
    read fails. *)
Definition SendUpdatesOneBlock
    (zmq : option CZMQNotificationInterface)
    (ReadBlockFromDisk : positive -> option CBlock)
    (games : gset string) (commandPrefix : CommandPrefix) (token : string)
    (pindex : positive) : outcome (list IO) :=
  match ReadBlockFromDisk pindex with
  | None => Returns [LogReadFailed pindex]
  | Some blk =>
      _ ← GetGameBlocksNotifier zmq;
      Returns [SendBlockNotifications games commandPrefix token blk pindex]
  end.

(** Where the runner thread stands in [SendUpdatesWorker::run]. *)
Inductive Runner :=
| RunLoopTop                                  (* about to take csWork *)
| RunWaiting                                  (* parked in cvWork.wait *)
| RunDetach (w : Work) (todo : list positive) (* first for loop *)
| RunAttach (w : Work) (todo : list positive) (* second for loop *)
| RunReturned                                 (* left the while loop *)
| RunThrown (code : RPCErrorCode) (msg : string).

(** The fields of [SendUpdatesWorker]; [csWork] guards [work] and
    [interrupted], and the only thread that waits on [cvWork] is
    [runner]. *)
Record SendUpdatesWorker := {
  work : list Work;
  interrupted : bool;
  runner : Runner
}.

(** The constructor: empty queue, not interrupted, thread started. *)
Definition new_SendUpdatesWorker : SendUpdatesWorker :=
  {| work := []; interrupted := false; runner := RunLoopTop |}.

(** [cvWork.notify_all ()]: a parked runner goes back to take the lock. *)
Definition notify_all (r : Runner) : Runner :=
  match r with
  | RunWaiting => RunLoopTop
  | _ => r
  end.

Definition interrupt (self : SendUpdatesWorker) : SendUpdatesWorker :=
  {| work := work self; interrupted := true;
     runner := notify_all (runner self) |}.

Definition enqueue (w : Work) (self : SendUpdatesWorker)
    : SendUpdatesWorker * list IO :=
  if interrupted self then (self, [LogNotEnqueueing w])
  else ({| work := work self ++ [w]; interrupted := interrupted self;
           runner := notify_all (runner self) |},
        [LogEnqueueing w]).

(** One atomic action of the runner thread: the block under [WAIT_LOCK],
    one call of [SendUpdatesOneBlock], or the end of a [for] loop. *)
Definition run_step (zmq : option CZMQNotificationInterface)
    (ReadBlockFromDisk : positive -> option CBlock)
    (self : SendUpdatesWorker) : SendUpdatesWorker * list IO :=
  let goto r := {| work := work self; interrupted := interrupted self;
                   runner := r |} in
  let send w prefix pindex next :=
    match SendUpdatesOneBlock zmq ReadBlockFromDisk (trackedGames w) prefix
            (reqtoken w) pindex with
    | Returns out => (goto next, out)
    | Throws code msg => (goto (RunThrown code msg), [])
    | _ => (self, [])    (* SendUpdatesOneBlock has no other outcome *)
    end in
  match runner self with
  | RunLoopTop =>
      match work self with
      | [] =>
          if interrupted self
          then (goto RunReturned, [LogQueueEmpty true])
          else (goto RunWaiting, [LogQueueEmpty false; LogWaiting])
      | w :: rest =>
          ({| work := rest; interrupted := interrupted self;
              runner := RunDetach w (detach w) |}, [LogPopped w])
      end
  | RunWaiting => (self, [])
  | RunDetach w (pindex :: todo) =>
      send w PREFIX_DETACH pindex (RunDetach w todo)
  | RunDetach w [] => (goto (RunAttach w (attach w)), [])
  | RunAttach w (pindex :: todo) =>
      send w PREFIX_ATTACH pindex (RunAttach w todo)
  | RunAttach w [] => (goto RunLoopTop, [LogFinished w])
  | RunReturned => (self, [])
  | RunThrown _ _ => (self, [])
  end.

(** The threads around one worker: producers that call [enqueue], the
    thread that calls [interrupt], the runner, and the wake-ups that a
    condition variable may deliver unasked. *)
Inductive Event :=
| EvEnqueue (w : Work)
| EvInterrupt
| EvRunner
| EvSpuriousWakeup.

Definition step (zmq : option CZMQNotificationInterface)
    (ReadBlockFromDisk : positive -> option CBlock)
    (st : SendUpdatesWorker * list IO) (ev : Event)
    : SendUpdatesWorker * list IO :=
  let (self, io) := st in
  match ev with
  | EvEnqueue w => let (self', out) := enqueue w self in (self', io ++ out)
  | EvInterrupt => (interrupt self, io)
  | EvRunner =>
      let (self', out) := run_step zmq ReadBlockFromDisk self in
      (self', io ++ out)
  | EvSpuriousWakeup =>
      ({| work := work self; interrupted := interrupted self;
          runner := notify_all (runner self) |}, io)
  end.

(** A schedule is the order in which the atomic actions take place. *)
Definition exec (zmq : option CZMQNotificationInterface)
    (ReadBlockFromDisk : positive -> option CBlock)
    (evs : list Event) (st : SendUpdatesWorker * list IO)
    : SendUpdatesWorker * list IO :=
  fold_left (step zmq ReadBlockFromDisk) evs st.

(** ** The RPC handlers *)

(** The process state that the handlers read and write. *)
Record Node := {
  mapBlockIndex : gmap N positive;          (* LookupBlockIndex *)
  blockIndex : gmap positive CBlockIndex;   (* the CBlockIndex objects *)
  chainActive_Tip : CBlockIndexPtr;
  g_zmq_notification_interface : option CZMQNotificationInterface;
  g_send_updates_worker : option SendUpdatesWorker;
  debug_log : list IO
}.

(** The parameters of [game_sendupdates] once [RPCTypeCheck] and
    [ParseHashV] have accepted them; a request that fails there throws
    before any of the state above is read. *)
Record SendUpdatesRequest := {
  gameid : string;
  fromblock : uint256;
  toblock : option uint256
}.

(** The object that [game_sendupdates] returns. *)
Record SendUpdatesResult := {
  res_toblock : uint256;
  res_ancestor : uint256;
  res_reqtoken : string;
  steps_detach : nat;
  steps_attach : nat
}.

Definition deref (idx : gmap positive CBlockIndex) (a : positive)
    : outcome CBlockIndex :=
  match idx !! a with
  | Some bi => Returns bi
  | None => InvalidDeref
  end.

Section Handlers.
Context `{Ext : External}.

(** The hash [toBlock]: the third parameter, or the hash of the tip of
    the active chain. *)
Definition target_block (node : Node) (request : SendUpdatesRequest)
    : outcome uint256 :=
  match toblock request with
  | Some h => Returns h
  | None =>
      match chainActive_Tip node with
      | None => InvalidDeref
      | Some tip => bi ← deref (blockIndex node) tip; Returns (phashBlock bi)
      end
  end.

(** [game_sendupdates] up to the call of [enqueue]: the work item and
    the result object.  [token] is the hex text of the sixteen bytes
    drawn by [GetRandBytes]. *)
Definition game_sendupdates_work (fuel : nat) (node : Node)
    (request : SendUpdatesRequest) (token : string)
    : outcome (Work * SendUpdatesResult) :=
  let idx := blockIndex node in
  toBlock ← target_block node request;
  match mapBlockIndex node !! fromblock request,
        mapBlockIndex node !! toBlock with
  | None, _ => Throws RPC_INVALID_ADDRESS_OR_KEY "fromblock not found"
  | Some _, None => Throws RPC_INVALID_ADDRESS_OR_KEY "toblock not found"
  | Some fromIndex, Some toIndex =>
      fromBi ← deref idx fromIndex;
      if negb (have_data fromBi)
      then Throws RPC_DATABASE_ERROR "fromblock has no data"
      else
        toBi ← deref idx toIndex;
        if negb (have_data toBi)
        then Throws RPC_DATABASE_ERROR "toblock has no data"
        else
          match LastCommonAncestor idx fromIndex toIndex with
          | None => AssertionFailed
          | Some ancestor =>
              det ← GetDetachSequence fuel idx (Some fromIndex)
                      (Some ancestor);
              att ← GetDetachSequence fuel idx (Some toIndex)
                      (Some ancestor);
              let w := {| reqtoken := token; detach := det;
                          attach := reverse att;
                          trackedGames := {[ gameid request ]} |} in
              ancBi ← deref idx ancestor;
              let result := {| res_toblock := toBlock;
                               res_ancestor := phashBlock ancBi;
                               res_reqtoken := token;
                               steps_detach := length (detach w);
                               steps_attach := length (attach w) |} in
              _ ← GetGameBlocksNotifier (g_zmq_notification_interface node);
              Returns (w, result)
          end
  end.

Definition game_sendupdates (fuel : nat) (node : Node)
    (request : SendUpdatesRequest) (token : string)
    : outcome SendUpdatesResult * Node :=
  match game_sendupdates_work fuel node request token with
  | Returns (w, result) =>
      match g_send_updates_worker node with
      | None => (AssertionFailed, node)
      | Some worker =>
          let (worker', out) := enqueue w worker in
          (Returns result,
           {| mapBlockIndex := mapBlockIndex node;
              blockIndex := blockIndex node;
              chainActive_Tip := chainActive_Tip node;
              g_zmq_notification_interface :=
                g_zmq_notification_interface node;
              g_send_updates_worker := Some worker';
              debug_log := debug_log node ++ out |})
      end
  | Throws code msg => (Throws code msg, node)
  | AssertionFailed => (AssertionFailed, node)
  | InvalidDeref => (InvalidDeref, node)
  | OutOfFuel => (OutOfFuel, node)
  end.

End Handlers.

(** Modelled from the spec: [AddTrackedGame] and [RemoveTrackedGame] of
    the notifier (zmq/zmqgames.cpp is not among the sources) are the
    idempotent [add(id)] and [remove(id)] of a set of ids. *)
Definition AddTrackedGame (g : string) (n : ZMQGameBlocksNotifier)
    : ZMQGameBlocksNotifier :=
  {| tracked := tracked n ∪ {[ g ]} |}.

Definition RemoveTrackedGame (g : string) (n : ZMQGameBlocksNotifier)
    : ZMQGameBlocksNotifier :=
  {| tracked := tracked n ∖ {[ g ]} |}.

Definition set_notifier (node : Node) (n : ZMQGameBlocksNotifier) : Node :=
  {| mapBlockIndex := mapBlockIndex node;
     blockIndex := blockIndex node;
     chainActive_Tip := chainActive_Tip node;
     g_zmq_notification_interface :=
       Some {| gameBlocksNotifier := Some n |};
     g_send_updates_worker := g_send_updates_worker node;
     debug_log := debug_log node |}.

(** [trackedgames]: [params] is [None] for the call without arguments
    and [Some (command, gameid)] otherwise; the result is the set of
    tracked games or [NullUniValue] ([None]). *)
Definition trackedgames (node : Node) (params : option (string * string))
    : outcome (option (gset string)) * Node :=
  match GetGameBlocksNotifier (g_zmq_notification_interface node) with
  | Returns notifier =>
      match params with
      | None => (Returns (Some (tracked notifier)), node)
      | Some (cmd, game) =>
          if decide (cmd = "add")
          then (Returns None, set_notifier node (AddTrackedGame game notifier))
          else if decide (cmd = "remove")
          then (Returns None,
                set_notifier node (RemoveTrackedGame game notifier))
          else (Throws RPC_INVALID_PARAMETER
                  ("invalid command for trackedgames: " +:+ cmd), node)
      end
  | Throws code msg => (Throws code msg, node)
  | AssertionFailed => (AssertionFailed, node)
  | InvalidDeref => (InvalidDeref, node)
  | OutOfFuel => (OutOfFuel, node)
  end.

(** ** The chain walk as the specification words it *)

(** [reaches idx p q]: following parent links from [p] leads to [q]
    (in no step or more). *)
Inductive reaches (idx : gmap positive CBlockIndex)
    : CBlockIndexPtr -> CBlockIndexPtr -> Prop :=
| reaches_here p : reaches idx p p
| reaches_parent a bi q :
    idx !! a = Some bi -> reaches idx (pprev bi) q ->
    reaches idx (Some a) q.

(** [WalkToAncestor idx from ancestor l]: starting at [from], repeatedly
    move to the parent, collecting each visited block, until reaching
    [ancestor] (exclusive); [l] is what was collected. *)
Inductive WalkToAncestor (idx : gmap positive CBlockIndex)
    (ancestor : CBlockIndexPtr) : CBlockIndexPtr -> list positive -> Prop :=
| walk_arrived : WalkToAncestor idx ancestor ancestor []
| walk_visit a bi l :
    Some a ≠ ancestor ->
    idx !! a = Some bi ->
    WalkToAncestor idx ancestor (pprev bi) l ->
    WalkToAncestor idx ancestor (Some a) (a :: l).

(** The parent of every block of [l] is the next block of [l], and the
    parent of the last one is [ancestor]. *)
Fixpoint linked (idx : gmap positive CBlockIndex) (l : list positive)
    (ancestor : CBlockIndexPtr) : Prop :=
  match l with
  | [] => True
  | a :: rest =>
      (exists bi, idx !! a = Some bi /\
                  pprev bi = match rest with
                             | [] => ancestor
                             | b :: _ => Some b
                             end)
      /\ linked idx rest ancestor
  end.

(** A block strictly between [top] and [bottom]: below [top], above
    [bottom], and neither of the two. *)
Definition strictly_between (idx : gmap positive CBlockIndex)
    (top bottom : CBlockIndexPtr) (x : positive) : Prop :=
  Some x ≠ top /\ Some x ≠ bottom /\
  reaches idx top (Some x) /\ reaches idx (Some x) bottom.

(** A block from [top] down to [bottom], [top] included and [bottom]
    not. *)
Definition from_top_above (idx : gmap positive CBlockIndex)
    (top bottom : CBlockIndexPtr) (x : positive) : Prop :=
  Some x ≠ bottom /\
  reaches idx top (Some x) /\ reaches idx (Some x) bottom.

(** No block is its own proper ancestor: the index is a tree. *)
Definition acyclic (idx : gmap positive CBlockIndex) : Prop :=
  forall a bi, idx !! a = Some bi -> ~ reaches idx (pprev bi) (Some a).

Definition block_has_data `{Ext : External}
    (idx : gmap positive CBlockIndex) (a : positive) : bool :=
  match idx !! a with
  | Some bi => have_data bi
  | None => false
  end.

(** A check that runs: every parent sits at a lower address than its
    child.  An index that passes is a tree. *)
Definition parents_at_lower_addresses (idx : gmap positive CBlockIndex)
    : bool :=
  forallb (fun entry : positive * CBlockIndex =>
             match pprev entry.2 with
             | Some p => Pos.ltb p entry.1
             | None => true
             end)
    (map_to_list idx).

(** The blocks from [p] upwards, at most [fuel] of them. *)
Fixpoint ancestors (fuel : nat) (idx : gmap positive CBlockIndex)
    (p : CBlockIndexPtr) : list positive :=
  match fuel, p with
  | S fuel', Some a =>
      a :: match idx !! a with
           | Some bi => ancestors fuel' idx (pprev bi)
           | None => []
           end
  | _, _ => []
  end.

(** Modelled from the spec: [LastCommonAncestor] (chain.cpp is not among
    the sources) returns the deepest block reachable by following parent
    links from both arguments, and nothing when they share no ancestor. *)
Definition LastCommonAncestor_spec (idx : gmap positive CBlockIndex)
    (a b : positive) : CBlockIndexPtr :=
  let fuel := S (size idx) in
  List.find (fun x => bool_decide (x ∈ ancestors fuel idx (Some b)))
    (ancestors fuel idx (Some a)).

Definition spec_external (flag : N) : External :=
  {| BLOCK_HAVE_DATA := flag; LastCommonAncestor := LastCommonAncestor_spec |}.

(** ** What the worker is expected to put out *)

(** The output of [SendUpdatesOneBlock] for a list of blocks, given what
    the disk holds: a notification for a block that can be read, the log
    line for one that cannot. *)
Definition blocks_io (ReadBlockFromDisk : positive -> option CBlock)
    (w : Work) (prefix : CommandPrefix) (l : list positive) : list IO :=
  map (fun pindex =>
         match ReadBlockFromDisk pindex with
         | Some blk =>
             SendBlockNotifications (trackedGames w) prefix (reqtoken w)
               blk pindex
         | None => LogReadFailed pindex
         end) l.

(** All of one item: popped, detaches, attaches, finished. *)
Definition item_io (ReadBlockFromDisk : positive -> option CBlock)
    (w : Work) : list IO :=
  LogPopped w :: blocks_io ReadBlockFromDisk w PREFIX_DETACH (detach w)
  ++ blocks_io ReadBlockFromDisk w PREFIX_ATTACH (attach w)
  ++ [LogFinished w].

(** What is left to put out for the item in the runner's hands. *)
Definition remaining_io (ReadBlockFromDisk : positive -> option CBlock)
    (r : Runner) : list IO :=
  match r with
  | RunDetach w todo =>
      blocks_io ReadBlockFromDisk w PREFIX_DETACH todo
      ++ blocks_io ReadBlockFromDisk w PREFIX_ATTACH (attach w)
      ++ [LogFinished w]
  | RunAttach w todo =>
      blocks_io ReadBlockFromDisk w PREFIX_ATTACH todo ++ [LogFinished w]
  | _ => []
  end.

(** The lines and calls that come from processing items; the others
    depend on the schedule alone. *)
Definition is_dispatch (e : IO) : bool :=
  match e with
  | LogPopped _ | LogFinished _ | LogReadFailed _
  | SendBlockNotifications _ _ _ _ _ => true
  | _ => false
  end.

Definition dispatched (io : list IO) : list IO := List.filter is_dispatch io.

(** What has come out of processing items, what is still to come for the
    item in hand, and what the queued items will give. *)
Definition expected_io (ReadBlockFromDisk : positive -> option CBlock)
    (st : SendUpdatesWorker * list IO) : list IO :=
  dispatched st.2
  ++ remaining_io ReadBlockFromDisk (runner st.1)
  ++ flat_map (item_io ReadBlockFromDisk) (work st.1).

(** The items that [enqueue] takes in along a schedule, in the order of
    the calls; [flag] is the interrupted flag at its start. *)
Fixpoint accepted (flag : bool) (evs : list Event) : list Work :=
  match evs with
  | [] => []
  | EvEnqueue w :: evs' =>
      if flag then accepted flag evs' else w :: accepted flag evs'
  | EvInterrupt :: evs' => accepted true evs'
  | _ :: evs' => accepted flag evs'
  end.

(** The runner is neither parked nor dead: its next action is its own. *)
Definition runner_can_move (r : Runner) : bool :=
  match r with
  | RunWaiting | RunThrown _ _ => false
  | _ => true
  end.

Definition runner_thrown (r : Runner) : bool :=
  match r with
  | RunThrown _ _ => true
  | _ => false
  end.

(** The number of runner actions that finish the item in hand, empty
    the queue and leave the loop. *)
Definition item_steps (w : Work) : nat :=
  length (detach w) + length (attach w) + 3.

Definition runner_steps (self : SendUpdatesWorker) : nat :=
  match runner self with
  | RunDetach w todo => length todo + length (attach w) + 2
  | RunAttach w todo => length todo + 1
  | _ => 0
  end
  + sum_list (map item_steps (work self)) + 1.

(** ** A chain to run the definitions on *)

(** Genesis (1), A (2), B (3), C (4) and the branch D (5), E (6) on top
    of B.  The data bit is 8; the other status bits vary. *)
Definition example_block (h : N) (parent : CBlockIndexPtr) (status : N)
    : CBlockIndex :=
  {| phashBlock := h; pprev := parent; nStatus := status |}.

Definition example_index : gmap positive CBlockIndex :=
  list_to_map
    [(1%positive, example_block 100 None 29);
     (2%positive, example_block 101 (Some 1%positive) 29);
     (3%positive, example_block 102 (Some 2%positive) 13);
     (4%positive, example_block 103 (Some 3%positive) 29);
     (5%positive, example_block 104 (Some 3%positive) 8);
     (6%positive, example_block 105 (Some 5%positive) 29)].

(** The same chain after the data of D has gone. *)
Definition example_index_pruned : gmap positive CBlockIndex :=
  <[5%positive := example_block 104 (Some 3%positive) 5]> example_index.

Definition example_hashes : gmap N positive :=
  list_to_map
    [(100%N, 1%positive); (101%N, 2%positive); (102%N, 3%positive);
     (103%N, 4%positive); (104%N, 5%positive); (105%N, 6%positive)].

Definition example_zmq : option CZMQNotificationInterface :=
  Some {| gameBlocksNotifier := Some {| tracked := {[ "a" ]} |} |}.

Definition example_node (idx : gmap positive CBlockIndex) : Node :=
  {| mapBlockIndex := example_hashes;
     blockIndex := idx;
     chainActive_Tip := Some 6%positive;
     g_zmq_notification_interface := example_zmq;
     g_send_updates_worker := Some new_SendUpdatesWorker;
     debug_log := [] |}.

(** [game_sendupdates "b" C E]. *)
Definition example_request : SendUpdatesRequest :=
  {| gameid := "b"; fromblock := 103; toblock := Some 105%N |}.

Definition example_work : Work :=
  {| reqtoken := "0f"; detach := [4%positive];
     attach := [5%positive; 6%positive]; trackedGames := {[ "b" ]} |}.

Definition example_result : SendUpdatesResult :=
  {| res_toblock := 105; res_ancestor := 102; res_reqtoken := "0f";
     steps_detach := 1; steps_attach := 2 |}.

(** The node once the example request has been served. *)
Definition example_node_after : Node :=
  {| mapBlockIndex := example_hashes;
     blockIndex := example_index;
     chainActive_Tip := Some 6%positive;
     g_zmq_notification_interface := example_zmq;
     g_send_updates_worker :=
       Some {| work := [example_work]; interrupted := false;
               runner := RunLoopTop |};
     debug_log := [LogEnqueueing example_work] |}.

(** [game_sendupdates "b" C C]. *)
Definition example_request_same : SendUpdatesRequest :=
  {| gameid := "b"; fromblock := 103; toblock := Some 103%N |}.

(** A worker after [interrupt ()] and the exit of its runner. *)
Definition example_worker_interrupted : SendUpdatesWorker :=
  {| work := []; interrupted := true; runner := RunReturned |}.

(** One producer call, the interrupt, and the runner left to itself. *)
Definition example_schedule : list Event :=
  EvEnqueue example_work :: EvInterrupt :: repeat EvRunner 8.

(** A disk on which C cannot be read any more. *)
Definition example_disk (pindex : positive) : option CBlock :=
  if decide (pindex = 4%positive) then None
  else Some {| blockData := Npos pindex |}.

(** The example node with ZMQ notifications disabled. *)
Definition example_node_no_zmq : Node :=
  {| mapBlockIndex := example_hashes;
     blockIndex := example_index;
     chainActive_Tip := Some 6%positive;
     g_zmq_notification_interface := None;
     g_send_updates_worker := Some new_SendUpdatesWorker;
     debug_log := [] |}.

(** [game_sendupdates "b" B E]: the new tip is on top of the old one. *)
Definition example_request_forward : SendUpdatesRequest :=
  {| gameid := "b"; fromblock := 102; toblock := Some 105%N |}.

(** [game_sendupdates "b" C] for a hash that no block has. *)
Definition example_request_unknown : SendUpdatesRequest :=
  {| gameid := "b"; fromblock := 999; toblock := Some 105%N |}.

(** The example node before the worker has been created. *)
Definition example_node_no_worker : Node :=
  {| mapBlockIndex := example_hashes;
     blockIndex := example_index;
     chainActive_Tip := Some 6%positive;
     g_zmq_notification_interface := example_zmq;
     g_send_updates_worker := None;
     debug_log := [] |}.

(** ** The text of a work item *)

(** A [std::set<std::string>] is gone through in ascending order. *)
Definition games_in_order (games : gset string) : list string :=
  merge_sort String.le (elements games).

(** The [for] loop of [Work::str]: [res] is the stream so far. *)
Fixpoint str_games (games : list string) (first : bool) (res : string)
    : string :=
  match games with
  | [] => res
  | g :: rest =>
      let res := if first then res else res +:+ "|" in
      str_games rest false (res +:+ g)
  end.

(** [SendUpdatesWorker::Work::str]. *)
Definition str (w : Work) : string :=
  let res := "work(" in
  let res := res +:+ "games: " in
  let res := str_games (games_in_order (trackedGames w)) true res in
  let res := res +:+ ", " in
  let res := res +:+ pretty (length (detach w)) in
  let res := res +:+ " detaches, " in
  let res := res +:+ pretty (length (attach w)) in
  let res := res +:+ " attaches" in
  res +:+ ")".

(** ** The resting places of the runner *)

(** The runner is parked only on an empty queue with the flag clear, and
    out of its loop only on an empty queue with the flag set. *)
Definition runner_at_rest_ok (self : SendUpdatesWorker) : bool :=
  match runner self, work self with
  | RunWaiting, [] => negb (interrupted self)
  | RunWaiting, _ :: _ => false
  | RunReturned, [] => interrupted self
  | RunReturned, _ :: _ => false
  | _, _ => true
  end.

(** The runner is inside the [while] loop of [run]: it has left it
    neither by the [break] nor by an exception. *)
Definition runner_in_loop (r : Runner) : bool :=
  match r with
  | RunReturned | RunThrown _ _ => false
  | _ => true
  end.

(** ** The walk *)

Section WalkFacts.
Context `{Ext : External}.
Variable idx : gmap positive CBlockIndex.

Lemma walk_reaches ancestor p l :
  WalkToAncestor idx ancestor p l -> reaches idx p ancestor.
Proof.
  induction 1 as [|a bi l Hne Hbi Hw IH].
  - apply reaches_here.
  - apply (reaches_parent idx a bi); assumption.
Qed.

Lemma reaches_walk p q :
  reaches idx p q -> exists l, WalkToAncestor idx q p l.
Proof.
  induction 1 as [p|a bi q Hbi Hr [l IH]].
  - exists []. apply walk_arrived.
  - destruct (decide (Some a = q)) as [<-|Hne].
    + exists []. apply walk_arrived.
    + exists (a :: l). apply (walk_visit idx q a bi); assumption.
Qed.

Lemma walk_unique ancestor p l1 l2 :
  WalkToAncestor idx ancestor p l1 -> WalkToAncestor idx ancestor p l2 ->
  l1 = l2.
Proof.
  intros H1. revert l2.
  induction H1 as [|a bi l Hne Hbi Hw IH]; intros l2 H2.
  - inversion H2; subst; [reflexivity | congruence].
  - inversion H2 as [Heq|a' bi' l' Hne' Hbi' Hw' Ha]; subst.
    + congruence.
    + f_equal. apply IH. congruence.
Qed.

Lemma walk_head ancestor p a l :
  WalkToAncestor idx ancestor p (a :: l) -> p = Some a.
Proof. inversion 1; reflexivity. Qed.

Lemma walk_excludes ancestor p l x :
  WalkToAncestor idx ancestor p l -> x ∈ l -> Some x ≠ ancestor.
Proof.
  induction 1 as [|a bi l Hne Hbi Hw IH]; intros Hx.
  - inversion Hx.
  - apply elem_of_cons in Hx as [->|Hx]; auto.
Qed.

Lemma walk_linked ancestor p l :
  WalkToAncestor idx ancestor p l -> linked idx l ancestor.
Proof.
  induction 1 as [|a bi l Hne Hbi Hw IH]; simpl; [exact I|].
  split; [|exact IH].
  exists bi. split; [exact Hbi|].
  destruct l as [|b l'].
  - inversion Hw; reflexivity.
  - apply walk_head in Hw. exact Hw.
Qed.

(** With fuel for every block of the walk, the loop returns the walk, or
    throws when one of its blocks has no data. *)
Lemma GetDetachSequence_loop_walk ancestor p l :
  WalkToAncestor idx ancestor p l ->
  forall fuel acc, length l <= fuel ->
    GetDetachSequence_loop fuel idx p ancestor acc =
    if forallb (block_has_data idx) l then Returns (acc ++ l)
    else Throws RPC_DATABASE_ERROR "detached block has no data".
Proof.
  induction 1 as [|a bi l Hne Hbi Hw IH]; intros fuel acc Hfuel.
  - destruct fuel; simpl; rewrite decide_True by reflexivity;
      rewrite app_nil_r; reflexivity.
  - destruct fuel as [|fuel]; simpl in Hfuel; [lia|].
    simpl. rewrite decide_False by exact Hne. rewrite Hbi.
    unfold block_has_data at 1. rewrite Hbi.
    destruct (have_data bi); simpl; [|reflexivity].
    rewrite IH by lia. rewrite <- app_assoc. reflexivity.
Qed.

(** Whatever the fuel, a list that the loop returns is a walk whose
    blocks all have data. *)
Lemma GetDetachSequence_loop_returns ancestor fuel :
  forall p acc l,
    GetDetachSequence_loop fuel idx p ancestor acc = Returns l ->
    exists l', l = acc ++ l' /\ WalkToAncestor idx ancestor p l' /\
               forallb (block_has_data idx) l' = true.
Proof.
  induction fuel as [|fuel IH]; intros p acc l; simpl.
  - destruct (decide (p = ancestor)) as [->|Hne]; [|discriminate].
    intros [= <-]. exists []. rewrite app_nil_r.
    split; [reflexivity|]. split; [apply walk_arrived | reflexivity].
  - destruct (decide (p = ancestor)) as [->|Hne].
    + intros [= <-]. exists []. rewrite app_nil_r.
      split; [reflexivity|]. split; [apply walk_arrived | reflexivity].
    + destruct p as [a|]; [|discriminate].
      destruct (idx !! a) as [bi|] eqn:Hbi; [|discriminate].
      destruct (have_data bi) eqn:Hdata; [|discriminate].
      intros Hloop. apply IH in Hloop as (l' & -> & Hw & Hall).
      exists (a :: l'). rewrite <- app_assoc. split; [reflexivity|].
      split; [apply (walk_visit idx ancestor a bi); assumption|].
      simpl. unfold block_has_data at 1. rewrite Hbi, Hdata. exact Hall.
Qed.

Lemma GetDetachSequence_returns ancestor fuel from l :
  GetDetachSequence fuel idx from ancestor = Returns l ->
  WalkToAncestor idx ancestor from l /\
  forallb (block_has_data idx) l = true.
Proof.
  unfold GetDetachSequence. intros H.
  apply GetDetachSequence_loop_returns in H as (l' & -> & Hw & Hall).
  simpl. split; assumption.
Qed.

Lemma GetDetachSequence_walk ancestor from l fuel :
  WalkToAncestor idx ancestor from l -> length l <= fuel ->
  GetDetachSequence fuel idx from ancestor =
  if forallb (block_has_data idx) l then Returns l
  else Throws RPC_DATABASE_ERROR "detached block has no data".
Proof.
  intros Hw Hfuel. unfold GetDetachSequence.
  rewrite (GetDetachSequence_loop_walk ancestor from l Hw) by exact Hfuel.
  reflexivity.
Qed.

End WalkFacts.

(** ** The request handler *)

Section HandlerFacts.
Context `{Ext : External}.

Lemma deref_returns idx a bi :
  deref idx a = Returns bi <-> idx !! a = Some bi.
Proof.
  unfold deref. destruct (idx !! a); split; intros H; congruence.
Qed.

(** What a successful run of the handler's first part went through. *)
Lemma game_sendupdates_work_returns fuel node request token w result :
  game_sendupdates_work fuel node request token = Returns (w, result) ->
  exists toBlock fromIndex toIndex fromBi toBi ancestor ancBi det att notifier,
    target_block node request = Returns toBlock /\
    mapBlockIndex node !! fromblock request = Some fromIndex /\
    mapBlockIndex node !! toBlock = Some toIndex /\
    blockIndex node !! fromIndex = Some fromBi /\ have_data fromBi = true /\
    blockIndex node !! toIndex = Some toBi /\ have_data toBi = true /\
    LastCommonAncestor (blockIndex node) fromIndex toIndex = Some ancestor /\
    GetDetachSequence fuel (blockIndex node) (Some fromIndex) (Some ancestor)
      = Returns det /\
    GetDetachSequence fuel (blockIndex node) (Some toIndex) (Some ancestor)
      = Returns att /\
    blockIndex node !! ancestor = Some ancBi /\
    GetGameBlocksNotifier (g_zmq_notification_interface node)
      = Returns notifier /\
    w = {| reqtoken := token; detach := det; attach := reverse att;
           trackedGames := {[ gameid request ]} |} /\
    result = {| res_toblock := toBlock; res_ancestor := phashBlock ancBi;
                res_reqtoken := token; steps_detach := length det;
                steps_attach := length (reverse att) |}.
Proof.
  unfold game_sendupdates_work. intros H.
  destruct (target_block node request) as [toBlock| | | |] eqn:Htarget;
    try discriminate H.
  simpl in H.
  destruct (mapBlockIndex node !! fromblock request) as [fromIndex|] eqn:Hfrom;
    [|discriminate H].
  destruct (mapBlockIndex node !! toBlock) as [toIndex|] eqn:Hto;
    [|discriminate H].
  destruct (deref (blockIndex node) fromIndex) as [fromBi| | | |] eqn:HfromBi;
    try discriminate H.
  simpl in H.
  destruct (have_data fromBi) eqn:HfromData; [|discriminate H].
  simpl in H.
  destruct (deref (blockIndex node) toIndex) as [toBi| | | |] eqn:HtoBi;
    try discriminate H.
  simpl in H.
  destruct (have_data toBi) eqn:HtoData; [|discriminate H].
  simpl in H.
  destruct (LastCommonAncestor (blockIndex node) fromIndex toIndex)
    as [ancestor|] eqn:Hanc; [|discriminate H].
  destruct (GetDetachSequence fuel (blockIndex node) (Some fromIndex)
              (Some ancestor)) as [det| | | |] eqn:Hdet; try discriminate H.
  simpl in H.
  destruct (GetDetachSequence fuel (blockIndex node) (Some toIndex)
              (Some ancestor)) as [att| | | |] eqn:Hatt; try discriminate H.
  simpl in H.
  destruct (deref (blockIndex node) ancestor) as [ancBi| | | |] eqn:HancBi;
    try discriminate H.
  simpl in H.
  destruct (GetGameBlocksNotifier (g_zmq_notification_interface node))
    as [notifier| | | |] eqn:Hzmq; try discriminate H.
  simpl in H. injection H as <- <-.
  apply deref_returns in HfromBi, HtoBi, HancBi.
  exists toBlock, fromIndex, toIndex, fromBi, toBi, ancestor, ancBi, det, att,
    notifier.
  repeat split; assumption.
Qed.
(** The handler's first part, evaluated: once both blocks are found with
    their data and the ancestor is on both parent chains, the outcome
    hangs on the data bits of the two walks, and then on the object of
    the ancestor and on the notifier. *)
Lemma game_sendupdates_work_runs fuel node request token
    toBlock fromIndex toIndex fromBi toBi ancestor det att :
  target_block node request = Returns toBlock ->
  mapBlockIndex node !! fromblock request = Some fromIndex ->
  mapBlockIndex node !! toBlock = Some toIndex ->
  blockIndex node !! fromIndex = Some fromBi -> have_data fromBi = true ->
  blockIndex node !! toIndex = Some toBi -> have_data toBi = true ->
  LastCommonAncestor (blockIndex node) fromIndex toIndex = Some ancestor ->
  WalkToAncestor (blockIndex node) (Some ancestor) (Some fromIndex) det ->
  WalkToAncestor (blockIndex node) (Some ancestor) (Some toIndex) att ->
  length det <= fuel -> length att <= fuel ->
  game_sendupdates_work fuel node request token =
  if forallb (block_has_data (blockIndex node)) det
     && forallb (block_has_data (blockIndex node)) att
  then
    ancBi ← deref (blockIndex node) ancestor;
    _ ← GetGameBlocksNotifier (g_zmq_notification_interface node);
    Returns ({| reqtoken := token; detach := det; attach := reverse att;
                trackedGames := {[ gameid request ]} |},
             {| res_toblock := toBlock; res_ancestor := phashBlock ancBi;
                res_reqtoken := token; steps_detach := length det;
                steps_attach := length (reverse att) |})
  else Throws RPC_DATABASE_ERROR "detached block has no data".
Proof.
  intros Htarget Hfrom Hto HfromBi HfromData HtoBi HtoData Hanc
    Hdet Hatt Hfd Hfa.
  unfold game_sendupdates_work. rewrite Htarget. simpl.
  rewrite Hfrom, Hto.
  apply deref_returns in HfromBi, HtoBi.
  rewrite HfromBi. simpl. rewrite HfromData. simpl.
  rewrite HtoBi. simpl. rewrite HtoData. simpl.
  rewrite Hanc.
  rewrite (GetDetachSequence_walk _ _ _ _ fuel Hdet Hfd).
  destruct (forallb (block_has_data (blockIndex node)) det); simpl;
    [|reflexivity].
  rewrite (GetDetachSequence_walk _ _ _ _ fuel Hatt Hfa).
  destruct (forallb (block_has_data (blockIndex node)) att); simpl;
    reflexivity.
Qed.

(** A call of the handler that returns has built a work item and handed
    it to [enqueue]; nothing else of the node changes. *)
Lemma game_sendupdates_returns fuel node request token result node' :
  game_sendupdates fuel node request token = (Returns result, node') ->
  exists w worker,
    game_sendupdates_work fuel node request token = Returns (w, result) /\
    g_send_updates_worker node = Some worker /\
    g_send_updates_worker node' = Some (enqueue w worker).1 /\
    debug_log node' = debug_log node ++ (enqueue w worker).2 /\
    blockIndex node' = blockIndex node /\
    mapBlockIndex node' = mapBlockIndex node /\
    g_zmq_notification_interface node' = g_zmq_notification_interface node.
Proof.
  unfold game_sendupdates. intros H.
  destruct (game_sendupdates_work fuel node request token)
    as [[w r]| | | |]; try discriminate H.
  destruct (g_send_updates_worker node) as [worker|]; [|discriminate H].
  destruct (enqueue w worker) as [worker' out] eqn:Henq.
  injection H as <- <-. exists w, worker. rewrite Henq. simpl.
  repeat split; reflexivity.
Qed.

(** The handler returns when both blocks are found with their data, the
    ancestor is an object on both parent chains, every block of the two
    walks has data, fuel covers the walks, and notifier and worker
    exist. *)
Lemma game_sendupdates_runs fuel node request token
    toBlock fromIndex toIndex fromBi toBi ancestor ancBi det att
    notifier worker :
  target_block node request = Returns toBlock ->
  mapBlockIndex node !! fromblock request = Some fromIndex ->
  mapBlockIndex node !! toBlock = Some toIndex ->
  blockIndex node !! fromIndex = Some fromBi -> have_data fromBi = true ->
  blockIndex node !! toIndex = Some toBi -> have_data toBi = true ->
  LastCommonAncestor (blockIndex node) fromIndex toIndex = Some ancestor ->
  blockIndex node !! ancestor = Some ancBi ->
  WalkToAncestor (blockIndex node) (Some ancestor) (Some fromIndex) det ->
  WalkToAncestor (blockIndex node) (Some ancestor) (Some toIndex) att ->
  length det <= fuel -> length att <= fuel ->
  forallb (block_has_data (blockIndex node)) det = true ->
  forallb (block_has_data (blockIndex node)) att = true ->
  GetGameBlocksNotifier (g_zmq_notification_interface node)
    = Returns notifier ->
  g_send_updates_worker node = Some worker ->
  exists node',
    game_sendupdates fuel node request token
    = (Returns {| res_toblock := toBlock; res_ancestor := phashBlock ancBi;
                  res_reqtoken := token; steps_detach := length det;
                  steps_attach := length (reverse att) |}, node') /\
    g_send_updates_worker node'
    = Some (enqueue {| reqtoken := token; detach := det;
                       attach := reverse att;
                       trackedGames := {[ gameid request ]} |} worker).1.
Proof.
  intros Htarget Hfrom Hto HfromBi HfromData HtoBi HtoData Hanc HancBi
    Hdet Hatt Hfd Hfa Hdd Hda Hzmq Hworker.
  unfold game_sendupdates.
  rewrite (game_sendupdates_work_runs fuel node request token toBlock
             fromIndex toIndex fromBi toBi ancestor det att) by assumption.
  rewrite Hdd, Hda. apply deref_returns in HancBi.
  simpl. rewrite HancBi. simpl. rewrite Hzmq. simpl. rewrite Hworker.
  destruct (enqueue _ worker) as [worker' out].
  eexists. split; reflexivity.
Qed.

(** A call that does not return leaves the node as it was. *)
Lemma game_sendupdates_fails fuel node request token o :
  game_sendupdates_work fuel node request token = o ->
  (forall p, o <> Returns p) ->
  (game_sendupdates fuel node request token).2 = node.
Proof.
  unfold game_sendupdates. intros <- Hno.
  destruct (game_sendupdates_work fuel node request token) as [[w r]| | | |];
    try reflexivity.
  exfalso. apply (Hno (w, r)). reflexivity.
Qed.

End HandlerFacts.

(** ** Claims on the chain walk *)

Section ChainClaims.
Context `{Ext : External}.

Lemma reaches_trans idx p q r :
  reaches idx p q -> reaches idx q r -> reaches idx p r.
Proof.
  induction 1 as [p|a bi q Hbi Hr IH]; intros Hqr; [exact Hqr|].
  apply (reaches_parent idx a bi); auto.
Qed.

(** In a tree, the walk holds the blocks from its start down to the
    ancestor, the start included and the ancestor not. *)
Lemma walk_members idx ancestor p l :
  acyclic idx -> WalkToAncestor idx ancestor p l ->
  forall x, x ∈ l <-> from_top_above idx p ancestor x.
Proof.
  intros Hacyc Hw.
  induction Hw as [|a bi l Hne Hbi Hw IH]; intros x; split.
  - intros Hx. inversion Hx.
  - intros (Hne & Hdown & Hup). exfalso.
    inversion Hdown as [|c bi q Hbi Hr]; subst; [congruence|].
    apply (Hacyc c bi Hbi). apply (reaches_trans idx _ (Some x)); assumption.
  - intros Hx. apply elem_of_cons in Hx as [->|Hx].
    + split; [exact Hne|]. split; [apply reaches_here|].
      apply (walk_reaches idx ancestor (Some a) (a :: l)).
      apply (walk_visit idx ancestor a bi); assumption.
    + apply IH in Hx as (Hx & Hdown & Hup).
      split; [exact Hx|]. split; [|exact Hup].
      apply (reaches_parent idx a bi); assumption.
  - intros (Hx & Hdown & Hup).
    inversion Hdown as [|a' bi' q Hbi' Hr]; subst.
    + apply list_elem_of_here.
    + apply list_elem_of_further. apply IH.
      assert (bi' = bi) as -> by congruence.
      split; [exact Hx|]. split; assumption.
Qed.

(** C1: when [ancestor] is reachable from [from] by parent links,
    [GetDetachSequence] returns the blocks visited from [from] up to
    [ancestor] exclusive, in visit order and [from] first (or throws for
    a visited block without data); the attach list that
    [game_sendupdates] builds is the reverse of that walk made from the
    new tip; and [game_sendupdates] does return, with these two lists in
    the item it queues, when both blocks are found, the walks have their
    data and fuel, and the ancestor, the notifier and the worker
    exist. *)
Theorem GetDetachSequence_refines_walk :
  (forall idx from ancestor,
     reaches idx from ancestor ->
     exists l,
       WalkToAncestor idx ancestor from l /\
       (forall a, head l = Some a -> from = Some a) /\
       forall fuel, length l <= fuel ->
         GetDetachSequence fuel idx from ancestor =
         if forallb (block_has_data idx) l then Returns l
         else Throws RPC_DATABASE_ERROR "detached block has no data") /\
  (forall fuel node request token result node',
     game_sendupdates fuel node request token = (Returns result, node') ->
     exists fromIndex toIndex ancestor walkFrom walkTo w worker,
       mapBlockIndex node !! fromblock request = Some fromIndex /\
       mapBlockIndex node !! res_toblock result = Some toIndex /\
       LastCommonAncestor (blockIndex node) fromIndex toIndex
         = Some ancestor /\
       WalkToAncestor (blockIndex node) (Some ancestor) (Some fromIndex)
         walkFrom /\
       WalkToAncestor (blockIndex node) (Some ancestor) (Some toIndex)
         walkTo /\
       detach w = walkFrom /\
       attach w = reverse walkTo /\
       g_send_updates_worker node = Some worker /\
       g_send_updates_worker node' = Some (enqueue w worker).1) /\
  (forall fuel node request token toBlock fromIndex toIndex fromBi toBi
          ancestor ancBi walkFrom walkTo notifier worker,
     target_block node request = Returns toBlock ->
     mapBlockIndex node !! fromblock request = Some fromIndex ->
     mapBlockIndex node !! toBlock = Some toIndex ->
     blockIndex node !! fromIndex = Some fromBi ->
     have_data fromBi = true ->
     blockIndex node !! toIndex = Some toBi ->
     have_data toBi = true ->
     LastCommonAncestor (blockIndex node) fromIndex toIndex
       = Some ancestor ->
     blockIndex node !! ancestor = Some ancBi ->
     WalkToAncestor (blockIndex node) (Some ancestor) (Some fromIndex)
       walkFrom ->
     WalkToAncestor (blockIndex node) (Some ancestor) (Some toIndex)
       walkTo ->
     length walkFrom <= fuel -> length walkTo <= fuel ->
     forallb (block_has_data (blockIndex node)) walkFrom = true ->
     forallb (block_has_data (blockIndex node)) walkTo = true ->
     GetGameBlocksNotifier (g_zmq_notification_interface node)
       = Returns notifier ->
     g_send_updates_worker node = Some worker ->
     exists node',
       game_sendupdates fuel node request token
       = (Returns {| res_toblock := toBlock;
                     res_ancestor := phashBlock ancBi;
                     res_reqtoken := token;
                     steps_detach := length walkFrom;
                     steps_attach := length (reverse walkTo) |}, node') /\
       g_send_updates_worker node'
       = Some (enqueue {| reqtoken := token; detach := walkFrom;
                          attach := reverse walkTo;
                          trackedGames := {[ gameid request ]} |}
                 worker).1).
Proof.
  split; [|split; [|intros; eapply game_sendupdates_runs; eassumption]].
  - intros idx from ancestor Hr.
    destruct (reaches_walk idx from ancestor Hr) as [l Hw].
    exists l. split; [exact Hw|]. split.
    + intros a Ha. destruct l as [|b l']; [discriminate Ha|].
      injection Ha as ->. exact (walk_head idx ancestor from a l' Hw).
    + intros fuel Hfuel. apply GetDetachSequence_walk; assumption.
  - intros fuel node request token result node' Hcall.
    apply game_sendupdates_returns in Hcall
      as (w & worker & Hwork & Hworker & Hworker' & _).
    apply game_sendupdates_work_returns in Hwork
      as (toBlock & fromIndex & toIndex & fromBi & toBi & ancestor & ancBi
          & det & att & notifier & Htarget & Hfrom & Hto & _ & _ & _ & _
          & Hanc & Hdet & Hatt & _ & _ & -> & ->).
    apply GetDetachSequence_returns in Hdet as [Hdet _].
    apply GetDetachSequence_returns in Hatt as [Hatt _].
    exists fromIndex, toIndex, ancestor, det, att.
    eexists; exists worker. simpl.
    repeat split; try eassumption; reflexivity.
Qed.

(** C10: for a proper ancestor of [from], a sequence that
    [GetDetachSequence] returns is not empty, starts with [from], has
    each further block the parent of the one before, and the parent of
    its last block is the ancestor; and the call does return such a
    sequence: the walk from [from] to the ancestor is one, and with
    fuel for it and data on its blocks the call returns it (it throws
    when one of its blocks has no data). *)
Theorem GetDetachSequence_chain_segment idx from ancestor :
  reaches idx from ancestor -> from <> ancestor ->
  (forall fuel l,
     GetDetachSequence fuel idx from ancestor = Returns l ->
     (exists a rest, l = a :: rest /\ from = Some a) /\
     linked idx l ancestor) /\
  (exists l,
     WalkToAncestor idx ancestor from l /\
     (exists a rest, l = a :: rest /\ from = Some a) /\
     linked idx l ancestor /\
     (forall fuel, length l <= fuel ->
        forallb (block_has_data idx) l = true ->
        GetDetachSequence fuel idx from ancestor = Returns l) /\
     (forall fuel, length l <= fuel ->
        forallb (block_has_data idx) l = false ->
        GetDetachSequence fuel idx from ancestor
        = Throws RPC_DATABASE_ERROR "detached block has no data")).
Proof.
  intros Hr Hne. split.
  - intros fuel l Hcall.
    apply GetDetachSequence_returns in Hcall as [Hw _].
    split; [|exact (walk_linked idx ancestor from l Hw)].
    destruct l as [|a rest].
    + inversion Hw. congruence.
    + exists a, rest. split; [reflexivity|].
      exact (walk_head idx ancestor from a rest Hw).
  - destruct (reaches_walk idx from ancestor Hr) as [l Hw].
    exists l. split; [exact Hw|]. split; [|split; [|split]].
    + destruct l as [|a rest].
      * inversion Hw. congruence.
      * exists a, rest. split; [reflexivity|].
        exact (walk_head idx ancestor from a rest Hw).
    + exact (walk_linked idx ancestor from l Hw).
    + intros fuel Hfuel Hdata.
      rewrite (GetDetachSequence_walk idx ancestor from l fuel Hw Hfuel).
      rewrite Hdata. reflexivity.
    + intros fuel Hfuel Hdata.
      rewrite (GetDetachSequence_walk idx ancestor from l fuel Hw Hfuel).
      rewrite Hdata. reflexivity.
Qed.

(** C6, as amended: the detach list holds the blocks from the old tip
    (included) down to the common ancestor (excluded), each before its
    parent; the attach list holds the blocks from the new tip (included)
    down to the ancestor (excluded), each after its parent; neither
    holds the ancestor. *)
Theorem reorg_lists_tip_to_ancestor fuel node request token result node' :
  acyclic (blockIndex node) ->
  game_sendupdates fuel node request token = (Returns result, node') ->
  exists fromIndex toIndex ancestor w worker,
    mapBlockIndex node !! fromblock request = Some fromIndex /\
    mapBlockIndex node !! res_toblock result = Some toIndex /\
    LastCommonAncestor (blockIndex node) fromIndex toIndex = Some ancestor /\
    g_send_updates_worker node = Some worker /\
    g_send_updates_worker node' = Some (enqueue w worker).1 /\
    (ancestor ∉ detach w) /\ (ancestor ∉ attach w) /\
    (forall x, x ∈ detach w <->
       from_top_above (blockIndex node) (Some fromIndex) (Some ancestor) x) /\
    (forall x, x ∈ attach w <->
       from_top_above (blockIndex node) (Some toIndex) (Some ancestor) x) /\
    linked (blockIndex node) (detach w) (Some ancestor) /\
    linked (blockIndex node) (reverse (attach w)) (Some ancestor).
Proof.
  intros Hacyc Hcall.
  apply game_sendupdates_returns in Hcall
    as (w & worker & Hwork & Hworker & Hworker' & _).
  apply game_sendupdates_work_returns in Hwork
    as (toBlock & fromIndex & toIndex & fromBi & toBi & ancestor & ancBi
        & det & att & notifier & Htarget & Hfrom & Hto & _ & _ & _ & _
        & Hanc & Hdet & Hatt & _ & _ & -> & ->).
  apply GetDetachSequence_returns in Hdet as [Hdet _].
  apply GetDetachSequence_returns in Hatt as [Hatt _].
  exists fromIndex, toIndex, ancestor. eexists; exists worker. simpl.
  split; [exact Hfrom|]. split; [exact Hto|]. split; [exact Hanc|].
  split; [exact Hworker|]. split; [exact Hworker'|]. simpl.
  split.
  { intros Hin. apply (walk_excludes _ _ _ _ _ Hdet Hin). reflexivity. }
  split.
  { intros Hin. rewrite elem_of_reverse in Hin.
    apply (walk_excludes _ _ _ _ _ Hatt Hin). reflexivity. }
  split; [apply walk_members; assumption|].
  split.
  { intros x. rewrite elem_of_reverse. apply walk_members; assumption. }
  split; [exact (walk_linked _ _ _ _ Hdet)|].
  rewrite reverse_involutive. exact (walk_linked _ _ _ _ Hatt).
Qed.

(** C4: when a block on the detach walk or on the attach walk lacks the
    data bit, the request throws [RPC_DATABASE_ERROR] and the node, with
    the worker and its queue, is as before the call. *)
Theorem game_sendupdates_data_unavailable fuel node request token
    toBlock fromIndex toIndex fromBi toBi ancestor walkFrom walkTo x :
  target_block node request = Returns toBlock ->
  mapBlockIndex node !! fromblock request = Some fromIndex ->
  mapBlockIndex node !! toBlock = Some toIndex ->
  blockIndex node !! fromIndex = Some fromBi ->
  blockIndex node !! toIndex = Some toBi ->
  LastCommonAncestor (blockIndex node) fromIndex toIndex = Some ancestor ->
  WalkToAncestor (blockIndex node) (Some ancestor) (Some fromIndex)
    walkFrom ->
  WalkToAncestor (blockIndex node) (Some ancestor) (Some toIndex) walkTo ->
  length walkFrom <= fuel -> length walkTo <= fuel ->
  x ∈ walkFrom ++ walkTo -> block_has_data (blockIndex node) x = false ->
  exists msg,
    game_sendupdates fuel node request token
    = (Throws RPC_DATABASE_ERROR msg, node).
Proof.
  intros Htarget Hfrom Hto HfromBi HtoBi Hanc Hdet Hatt Hfd Hfa Hx Hdata.
  assert (Hthrow : exists msg,
    game_sendupdates_work fuel node request token
    = Throws RPC_DATABASE_ERROR msg).
  { destruct (have_data fromBi) eqn:HfromData.
    - destruct (have_data toBi) eqn:HtoData.
      + rewrite (game_sendupdates_work_runs fuel node request token toBlock
                   fromIndex toIndex fromBi toBi ancestor walkFrom walkTo)
          by assumption.
        destruct (forallb (block_has_data (blockIndex node)) walkFrom
                  && forallb (block_has_data (blockIndex node)) walkTo)
          eqn:Hall; [|eexists; reflexivity].
        exfalso. apply andb_true_iff in Hall as [H1 H2].
        rewrite forallb_forall in H1, H2.
        apply elem_of_app in Hx as [Hx|Hx]; apply list_elem_of_In in Hx;
          [apply H1 in Hx | apply H2 in Hx]; congruence.
      + unfold game_sendupdates_work. rewrite Htarget. simpl.
        rewrite Hfrom, Hto.
        apply deref_returns in HfromBi, HtoBi.
        rewrite HfromBi. simpl. rewrite HfromData. simpl.
        rewrite HtoBi. simpl. rewrite HtoData. simpl.
        eexists; reflexivity.
    - unfold game_sendupdates_work. rewrite Htarget. simpl.
      rewrite Hfrom, Hto.
      apply deref_returns in HfromBi.
      rewrite HfromBi. simpl. rewrite HfromData. simpl.
      eexists; reflexivity. }
  destruct Hthrow as [msg Hthrow]. exists msg.
  unfold game_sendupdates. rewrite Hthrow. reflexivity.
Qed.

End ChainClaims.

(** ** Claims on the handlers *)

Lemma LastCommonAncestor_spec_same idx x :
  LastCommonAncestor_spec idx x x = Some x.
Proof.
  unfold LastCommonAncestor_spec. simpl.
  rewrite bool_decide_eq_true_2 by apply list_elem_of_here. reflexivity.
Qed.

(** C9: a request whose old tip is its new tip computes an empty detach
    list and an empty attach list and reports that block as the common
    ancestor; with the block's data and the notifier in place the call
    returns so, whatever the fuel. *)
Theorem same_tip_no_steps (flag : N) fuel node request token x bi :
  target_block node request = Returns (fromblock request) ->
  mapBlockIndex node !! fromblock request = Some x ->
  blockIndex node !! x = Some bi ->
  (forall result node',
     game_sendupdates (Ext := spec_external flag) fuel node request token
       = (Returns result, node') ->
     LastCommonAncestor_spec (blockIndex node) x x = Some x /\
     res_ancestor result = phashBlock bi /\
     steps_detach result = 0 /\ steps_attach result = 0 /\
     exists w worker,
       detach w = [] /\ attach w = [] /\
       g_send_updates_worker node = Some worker /\
       g_send_updates_worker node' = Some (enqueue w worker).1) /\
  (forall notifier worker,
     have_data (Ext := spec_external flag) bi = true ->
     GetGameBlocksNotifier (g_zmq_notification_interface node)
       = Returns notifier ->
     g_send_updates_worker node = Some worker ->
     exists node',
       game_sendupdates (Ext := spec_external flag) fuel node request token
       = (Returns {| res_toblock := fromblock request;
                     res_ancestor := phashBlock bi;
                     res_reqtoken := token;
                     steps_detach := 0; steps_attach := 0 |}, node') /\
       g_send_updates_worker node'
       = Some (enqueue {| reqtoken := token; detach := []; attach := [];
                          trackedGames := {[ gameid request ]} |}
                 worker).1).
Proof.
  intros Htarget Hfrom Hbi. split.
  - intros result node' Hcall.
    apply (game_sendupdates_returns (Ext := spec_external flag)) in Hcall
      as (w & worker & Hwork & Hworker & Hworker' & _).
    apply (game_sendupdates_work_returns (Ext := spec_external flag)) in Hwork
      as (toBlock & fromIndex & toIndex & fromBi & toBi & ancestor & ancBi
          & det & att & notifier & Htarget' & Hfrom' & Hto & _ & _ & _ & _
          & Hanc & Hdet & Hatt & HancBi & _ & -> & ->).
    assert (toBlock = fromblock request) as -> by congruence.
    assert (fromIndex = x) as -> by congruence.
    assert (toIndex = x) as -> by congruence.
    simpl in Hanc. rewrite LastCommonAncestor_spec_same in Hanc.
    injection Hanc as <-.
    assert (ancBi = bi) as -> by congruence.
    apply (GetDetachSequence_returns (Ext := spec_external flag)) in Hdet
      as [Hdet _].
    apply (GetDetachSequence_returns (Ext := spec_external flag)) in Hatt
      as [Hatt _].
    assert (det = []) as ->
      by (inversion Hdet; [reflexivity | congruence]).
    assert (att = []) as ->
      by (inversion Hatt; [reflexivity | congruence]).
    split; [apply LastCommonAncestor_spec_same|].
    repeat (split; [reflexivity|]).
    eexists; exists worker.
    split; [|split; [|split; [exact Hworker | exact Hworker']]];
      reflexivity.
  - intros notifier worker Hdata Hzmq Hworker.
    pose proof (game_sendupdates_work_runs (Ext := spec_external flag)
                  fuel node request token (fromblock request) x x bi bi x
                  [] [] Htarget Hfrom) as Hruns.
    specialize (Hruns Hfrom Hbi Hdata Hbi Hdata
                  (LastCommonAncestor_spec_same (blockIndex node) x)
                  (walk_arrived _ _) (walk_arrived _ _)
                  (Nat.le_0_l fuel) (Nat.le_0_l fuel)).
    simpl in Hruns. apply deref_returns in Hbi.
    rewrite Hbi, Hzmq in Hruns. simpl in Hruns.
    unfold game_sendupdates. rewrite Hruns, Hworker.
    destruct (enqueue _ worker) as [worker' out] eqn:Henq.
    eexists. split; reflexivity.
Qed.

(** C8, as amended: the games stored in the work item are the one game
    named by the request, whatever the set of tracked games holds, and
    they are fixed when the item is built; [trackedgames] leaves the
    worker and its queue alone, and the runner sends an item under its
    own games whatever the notifier tracks by then. *)
Theorem work_item_games_from_request `{Ext : External} :
  (forall fuel node request token result node',
     game_sendupdates fuel node request token = (Returns result, node') ->
     exists w worker,
       trackedGames w = {[ gameid request ]} /\
       g_send_updates_worker node = Some worker /\
       g_send_updates_worker node' = Some (enqueue w worker).1) /\
  (forall node params,
     g_send_updates_worker (trackedgames node params).2
     = g_send_updates_worker node) /\
  (forall n1 n2 disk self,
     run_step (Some {| gameBlocksNotifier := Some n1 |}) disk self
     = run_step (Some {| gameBlocksNotifier := Some n2 |}) disk self).
Proof.
  split; [|split].
  - intros fuel node request token result node' Hcall.
    apply game_sendupdates_returns in Hcall
      as (w & worker & Hwork & Hworker & Hworker' & _).
    apply game_sendupdates_work_returns in Hwork
      as (toBlock & fromIndex & toIndex & fromBi & toBi & ancestor & ancBi
          & det & att & notifier & _ & _ & _ & _ & _ & _ & _
          & _ & _ & _ & _ & _ & -> & _).
    eexists; exists worker.
    split; [|split; [exact Hworker | exact Hworker']]. reflexivity.
  - intros node params. unfold trackedgames.
    destruct (GetGameBlocksNotifier (g_zmq_notification_interface node));
      try reflexivity.
    destruct params as [[cmd game]|]; [|reflexivity].
    repeat case_decide; reflexivity.
  - intros n1 n2 disk self. unfold run_step, SendUpdatesOneBlock.
    destruct (runner self) as [| |w [|p todo]|w [|p todo]| |];
      try reflexivity; destruct (disk p); reflexivity.
Qed.

(** ** The worker *)

Section WorkerFacts.
Variable zmq : option CZMQNotificationInterface.
Variable notifier : ZMQGameBlocksNotifier.
Hypothesis zmq_set : GetGameBlocksNotifier zmq = Returns notifier.
Variable disk : positive -> option CBlock.

Lemma SendUpdatesOneBlock_set games prefix token pindex :
  SendUpdatesOneBlock zmq disk games prefix token pindex =
  Returns [match disk pindex with
           | Some blk => SendBlockNotifications games prefix token blk pindex
           | None => LogReadFailed pindex
           end].
Proof.
  unfold SendUpdatesOneBlock. destruct (disk pindex); [|reflexivity].
  rewrite zmq_set. reflexivity.
Qed.

Lemma dispatched_app io1 io2 :
  dispatched (io1 ++ io2) = dispatched io1 ++ dispatched io2.
Proof. apply List.filter_app. Qed.

Lemma remaining_io_notify_all r :
  remaining_io disk (notify_all r) = remaining_io disk r.
Proof. destruct r; reflexivity. Qed.

Lemma step_interrupted st ev :
  interrupted (step zmq disk st ev).1 =
  match ev with
  | EvInterrupt => true
  | _ => interrupted st.1
  end.
Proof.
  destruct st as [self io]. destruct ev as [w| | |]; simpl;
    try reflexivity.
  - unfold enqueue. destruct (interrupted self) eqn:Hi; simpl; congruence.
  - unfold run_step.
    destruct (runner self) as [| |w [|p todo]|w [|p todo]| |];
      rewrite ?SendUpdatesOneBlock_set; try reflexivity.
    destruct (work self); [destruct (interrupted self) eqn:Hi|]; simpl;
      congruence.
Qed.

(** One action of any thread adds to the expected output what [enqueue]
    took in, and nothing else. *)
Lemma step_expected_io st ev :
  expected_io disk (step zmq disk st ev) =
  expected_io disk st
  ++ flat_map (item_io disk) (accepted (interrupted st.1) [ev]).
Proof.
  destruct st as [self io]. unfold expected_io.
  destruct ev as [w| | |]; simpl.
  - unfold enqueue. destruct (interrupted self); simpl.
    + rewrite dispatched_app. simpl. rewrite !app_nil_r. reflexivity.
    + rewrite dispatched_app, remaining_io_notify_all, flat_map_app.
      simpl. rewrite !app_nil_r, <- !app_assoc. reflexivity.
  - rewrite remaining_io_notify_all, app_nil_r. reflexivity.
  - rewrite app_nil_r. unfold run_step.
    destruct (runner self) as [| |w [|p todo]|w [|p todo]| |] eqn:Hr;
      rewrite ?SendUpdatesOneBlock_set;
      simpl; rewrite ?Hr, ?dispatched_app; simpl;
      rewrite ?app_nil_r; try reflexivity.
    + destruct (work self) as [|w rest];
        [destruct (interrupted self)|]; simpl;
        rewrite ?dispatched_app; simpl; rewrite ?app_nil_r, <- ?app_assoc;
        reflexivity.
    + destruct (disk p); simpl; rewrite <- !app_assoc; reflexivity.
    + rewrite <- !app_assoc. reflexivity.
    + destruct (disk p); simpl; rewrite <- !app_assoc; reflexivity.
  - rewrite remaining_io_notify_all, app_nil_r. reflexivity.
Qed.

Lemma accepted_cons flag ev evs :
  accepted flag (ev :: evs) =
  accepted flag [ev]
  ++ accepted (match ev with EvInterrupt => true | _ => flag end) evs.
Proof.
  destruct ev; simpl; try reflexivity. destruct flag; reflexivity.
Qed.

(** Along any schedule: output so far, output to come and queue make up
    the items taken in, in the order of the [enqueue] calls. *)
Lemma exec_expected_io evs :
  forall st,
    expected_io disk (exec zmq disk evs st) =
    expected_io disk st
    ++ flat_map (item_io disk) (accepted (interrupted st.1) evs).
Proof.
  induction evs as [|ev evs IH]; intros st.
  - simpl. rewrite app_nil_r. reflexivity.
  - change (exec zmq disk (ev :: evs) st)
      with (exec zmq disk evs (step zmq disk st ev)).
    rewrite IH, step_expected_io, step_interrupted.
    rewrite (accepted_cons _ ev evs), flat_map_app, <- app_assoc.
    reflexivity.
Qed.

Lemma exec_app evs1 evs2 st :
  exec zmq disk (evs1 ++ evs2) st = exec zmq disk evs2 (exec zmq disk evs1 st).
Proof. apply fold_left_app. Qed.

Lemma exec_interrupted evs :
  forall st, interrupted st.1 = true ->
    interrupted (exec zmq disk evs st).1 = true.
Proof.
  induction evs as [|ev evs IH]; intros st Hi; [exact Hi|].
  apply IH. rewrite step_interrupted. destruct ev; auto.
Qed.

(** The runner leaves the loop by its own action only, on an empty queue
    with the flag set. *)
Lemma step_returned st ev :
  runner (step zmq disk st ev).1 = RunReturned ->
  runner st.1 <> RunReturned ->
  ev = EvRunner /\ work st.1 = [] /\ interrupted st.1 = true
  /\ work (step zmq disk st ev).1 = [].
Proof.
  destruct st as [[wk intr r] io]. destruct ev as [w| | |]; simpl.
  - unfold enqueue. simpl. destruct intr; simpl; [congruence|].
    destruct r; simpl; congruence.
  - destruct r; simpl; congruence.
  - unfold run_step. simpl.
    destruct r as [| |w [|p todo]|w [|p todo]| |];
      rewrite ?SendUpdatesOneBlock_set; simpl; try congruence.
    destruct wk as [|w rest]; [destruct intr|]; simpl; try congruence.
    intros _ _. repeat split; reflexivity.
  - destruct r; simpl; congruence.
Qed.

(** Once the runner has left an empty queue with the flag set, nothing
    comes into the queue any more. *)
Lemma step_after_return st ev :
  runner st.1 = RunReturned -> work st.1 = [] -> interrupted st.1 = true ->
  runner (step zmq disk st ev).1 = RunReturned
  /\ work (step zmq disk st ev).1 = []
  /\ interrupted (step zmq disk st ev).1 = true.
Proof.
  destruct st as [[wk intr r] io]. simpl. intros -> -> ->.
  destruct ev; simpl; repeat split; reflexivity.
Qed.

Lemma exec_returned evs :
  forall st,
    (runner st.1 = RunReturned ->
     work st.1 = [] /\ interrupted st.1 = true) ->
    runner (exec zmq disk evs st).1 = RunReturned ->
    work (exec zmq disk evs st).1 = []
    /\ interrupted (exec zmq disk evs st).1 = true.
Proof.
  induction evs as [|ev evs IH]; intros st Hinv; [exact Hinv|].
  change (exec zmq disk (ev :: evs) st)
    with (exec zmq disk evs (step zmq disk st ev)).
  apply IH. intros Hret.
  assert (runner st.1 = RunReturned \/ runner st.1 <> RunReturned)
    as [Hwas|Hwas]
    by (destruct (runner st.1); (left; reflexivity) || (right; discriminate)).
  - destruct (Hinv Hwas) as [Hwk Hi].
    destruct (step_after_return st ev Hwas Hwk Hi) as (_ & ? & ?).
    split; assumption.
  - destruct (step_returned st ev Hret Hwas) as (-> & Hwk & Hi & Hwk').
    split; [exact Hwk'|]. rewrite step_interrupted. exact Hi.
Qed.

(** With the notifier in place no action throws. *)
Lemma step_not_thrown st ev :
  runner_thrown (runner st.1) = false ->
  runner_thrown (runner (step zmq disk st ev).1) = false.
Proof.
  destruct st as [[wk intr r] io]. destruct ev as [w| | |]; simpl.
  - unfold enqueue. simpl. destruct intr; simpl; [auto|].
    destruct r; simpl; auto.
  - destruct r; simpl; auto.
  - unfold run_step. simpl.
    destruct r as [| |w [|p todo]|w [|p todo]| |];
      rewrite ?SendUpdatesOneBlock_set; simpl; auto.
    destruct wk as [|w rest]; [destruct intr|]; simpl; auto.
  - destruct r; simpl; auto.
Qed.

Lemma exec_not_thrown evs :
  forall st, runner_thrown (runner st.1) = false ->
    runner_thrown (runner (exec zmq disk evs st).1) = false.
Proof.
  induction evs as [|ev evs IH]; intros st H; [exact H|].
  apply IH. apply step_not_thrown. exact H.
Qed.

(** With the flag set, an action of a runner that can move brings it
    nearer to the exit. *)
Lemma run_step_progress self :
  interrupted self = true -> runner_can_move (runner self) = true ->
  interrupted (run_step zmq disk self).1 = true /\
  runner_can_move (runner (run_step zmq disk self).1) = true /\
  (runner (run_step zmq disk self).1 = RunReturned \/
   runner_steps (run_step zmq disk self).1 < runner_steps self).
Proof.
  destruct self as [wk intr r]. simpl. intros -> Hmove.
  unfold run_step. simpl.
  destruct r as [| |w [|p todo]|w [|p todo]| |];
    rewrite ?SendUpdatesOneBlock_set; simpl in *; try discriminate Hmove;
    unfold runner_steps, item_steps; simpl;
    try (repeat split; try reflexivity; right; lia).
  - destruct wk as [|w rest]; simpl.
    + repeat split; try reflexivity. left. reflexivity.
    + repeat split; try reflexivity. right. unfold item_steps. lia.
  - repeat split; try reflexivity. left. reflexivity.
Qed.

Lemma exec_runner_returned k :
  forall st, runner st.1 = RunReturned ->
    runner (exec zmq disk (repeat EvRunner k) st).1 = RunReturned.
Proof.
  induction k as [|k IH]; intros [self io] Hr; [exact Hr|].
  simpl. apply IH. simpl in Hr. unfold run_step. rewrite Hr. exact Hr.
Qed.

(** With the flag set, a runner that can move leaves the loop within
    [runner_steps] actions. *)
Lemma runner_drains k :
  forall self io,
    interrupted self = true -> runner_can_move (runner self) = true ->
    runner_steps self <= k ->
    runner (exec zmq disk (repeat EvRunner k) (self, io)).1 = RunReturned.
Proof.
  induction k as [|k IH]; intros self io Hi Hmove Hk.
  - unfold runner_steps in Hk. lia.
  - simpl. destruct (run_step_progress self Hi Hmove) as (Hi' & Hmove' & Hp).
    destruct (run_step zmq disk self) as [self' out]. simpl in *.
    destruct Hp as [Hret|Hlt].
    + apply exec_runner_returned. exact Hret.
    + apply IH; [assumption..|lia].
Qed.

(** The first [for] loop, run to its end. *)
Lemma run_detach_all w wk intr todo :
  forall io,
    exec zmq disk (repeat EvRunner (length todo))
      ({| work := wk; interrupted := intr; runner := RunDetach w todo |}, io)
    = ({| work := wk; interrupted := intr; runner := RunDetach w [] |},
       io ++ blocks_io disk w PREFIX_DETACH todo).
Proof.
  induction todo as [|p todo IH]; intros io; simpl.
  - rewrite app_nil_r. reflexivity.
  - unfold run_step. simpl. rewrite SendUpdatesOneBlock_set. simpl.
    rewrite IH, <- app_assoc. reflexivity.
Qed.

(** The second [for] loop, run to its end. *)
Lemma run_attach_all w wk intr todo :
  forall io,
    exec zmq disk (repeat EvRunner (length todo))
      ({| work := wk; interrupted := intr; runner := RunAttach w todo |}, io)
    = ({| work := wk; interrupted := intr; runner := RunAttach w [] |},
       io ++ blocks_io disk w PREFIX_ATTACH todo).
Proof.
  induction todo as [|p todo IH]; intros io; simpl.
  - rewrite app_nil_r. reflexivity.
  - unfold run_step. simpl. rewrite SendUpdatesOneBlock_set. simpl.
    rewrite IH, <- app_assoc. reflexivity.
Qed.

(** One item from the pop to the line that reports it finished. *)
Lemma run_one_item w rest intr io :
  exec zmq disk (repeat EvRunner (item_steps w))
    ({| work := w :: rest; interrupted := intr; runner := RunLoopTop |}, io)
  = ({| work := rest; interrupted := intr; runner := RunLoopTop |},
     io ++ item_io disk w).
Proof.
  replace (item_steps w)
    with (1 + (length (detach w) + (1 + (length (attach w) + 1))))
    by (unfold item_steps; lia).
  rewrite !repeat_app, !exec_app. simpl.
  rewrite run_detach_all. simpl.
  rewrite run_attach_all. simpl.
  unfold item_io. simpl. rewrite <- !app_assoc. reflexivity.
Qed.

Lemma accepted_interrupted evs : accepted true evs = [].
Proof. induction evs as [|[w| | |] evs IH]; simpl; auto. Qed.

Lemma exec_enqueue_all ws :
  forall wk r io,
    exec zmq disk (map EvEnqueue ws)
      ({| work := wk; interrupted := false; runner := r |}, io)
    = ({| work := wk ++ ws; interrupted := false;
          runner := match ws with [] => r | _ => notify_all r end |},
       io ++ map LogEnqueueing ws).
Proof.
  induction ws as [|w ws IH]; intros wk r io; simpl.
  - rewrite !app_nil_r. reflexivity.
  - unfold enqueue. simpl. rewrite IH, <- !app_assoc. simpl.
    destruct ws; [reflexivity|]. destruct r; reflexivity.
Qed.

Lemma accepted_enqueue_all ws evs :
  accepted false (map EvEnqueue ws ++ EvInterrupt :: evs) = ws.
Proof.
  induction ws as [|w ws IH]; simpl.
  - apply accepted_interrupted.
  - rewrite IH. reflexivity.
Qed.

(** C2: the runner leaves its loop by its own action only, with the
    queue empty and the interrupted flag set; when it has left, all
    items that [enqueue] took in before the interrupt have been popped
    and sent to their end, in order; after an interrupt the runner does
    leave once it has had its actions; so N items enqueued and then an
    interrupt give N items processed before the thread ends. *)
Theorem worker_drains_before_exit :
  (forall st ev,
     runner (step zmq disk st ev).1 = RunReturned ->
     runner st.1 <> RunReturned ->
     ev = EvRunner /\ work st.1 = [] /\ interrupted st.1 = true) /\
  (forall evs,
     runner (exec zmq disk evs (new_SendUpdatesWorker, [])).1
       = RunReturned ->
     work (exec zmq disk evs (new_SendUpdatesWorker, [])).1 = [] /\
     interrupted (exec zmq disk evs (new_SendUpdatesWorker, [])).1 = true /\
     dispatched (exec zmq disk evs (new_SendUpdatesWorker, [])).2
       = flat_map (item_io disk) (accepted false evs)) /\
  (forall evs k,
     runner_steps
       (exec zmq disk (evs ++ [EvInterrupt]) (new_SendUpdatesWorker, [])).1
       <= k ->
     runner (exec zmq disk (evs ++ EvInterrupt :: repeat EvRunner k)
               (new_SendUpdatesWorker, [])).1 = RunReturned) /\
  (forall ws k,
     sum_list (map item_steps ws) + 1 <= k ->
     runner (exec zmq disk
               (map EvEnqueue ws ++ EvInterrupt :: repeat EvRunner k)
               (new_SendUpdatesWorker, [])).1 = RunReturned /\
     work (exec zmq disk
             (map EvEnqueue ws ++ EvInterrupt :: repeat EvRunner k)
             (new_SendUpdatesWorker, [])).1 = [] /\
     dispatched (exec zmq disk
                   (map EvEnqueue ws ++ EvInterrupt :: repeat EvRunner k)
                   (new_SendUpdatesWorker, [])).2
       = flat_map (item_io disk) ws).
Proof.
  assert (Hsafe : forall evs,
     runner (exec zmq disk evs (new_SendUpdatesWorker, [])).1
       = RunReturned ->
     work (exec zmq disk evs (new_SendUpdatesWorker, [])).1 = [] /\
     interrupted (exec zmq disk evs (new_SendUpdatesWorker, [])).1 = true /\
     dispatched (exec zmq disk evs (new_SendUpdatesWorker, [])).2
       = flat_map (item_io disk) (accepted false evs)).
  { intros evs Hret.
    destruct (exec_returned evs (new_SendUpdatesWorker, [])) as [Hwk Hi];
      [discriminate | exact Hret |].
    split; [exact Hwk|]. split; [exact Hi|].
    pose proof (exec_expected_io evs (new_SendUpdatesWorker, [])) as Hio.
    unfold expected_io in Hio. rewrite Hret, Hwk in Hio. simpl in Hio.
    rewrite !app_nil_r in Hio. exact Hio. }
  assert (Hlive : forall evs k,
     runner_steps
       (exec zmq disk (evs ++ [EvInterrupt]) (new_SendUpdatesWorker, [])).1
       <= k ->
     runner (exec zmq disk (evs ++ EvInterrupt :: repeat EvRunner k)
               (new_SendUpdatesWorker, [])).1 = RunReturned).
  { intros evs k Hk.
    change (evs ++ EvInterrupt :: repeat EvRunner k)
      with (evs ++ [EvInterrupt] ++ repeat EvRunner k).
    rewrite app_assoc, exec_app.
    rewrite exec_app in Hk |- *.
    pose proof (exec_not_thrown evs (new_SendUpdatesWorker, []) eq_refl)
      as Hnt.
    destruct (exec zmq disk evs (new_SendUpdatesWorker, []))
      as [[wk intr r] io].
    simpl in Hk, Hnt |- *.
    apply runner_drains; [reflexivity| |exact Hk].
    simpl. destruct r; simpl in *; congruence. }
  split; [|split; [exact Hsafe|split; [exact Hlive|]]].
  - intros st ev Hret Hwas.
    destruct (step_returned st ev Hret Hwas) as (? & ? & ? & _). auto.
  - intros ws k Hk.
    assert (Hret : runner (exec zmq disk
               (map EvEnqueue ws ++ EvInterrupt :: repeat EvRunner k)
               (new_SendUpdatesWorker, [])).1 = RunReturned).
    { apply Hlive. rewrite exec_app. unfold new_SendUpdatesWorker.
      rewrite exec_enqueue_all. simpl.
      unfold runner_steps. simpl. destruct ws; simpl in *; lia. }
    destruct (Hsafe _ Hret) as (Hwk & _ & Hio).
    rewrite accepted_enqueue_all in Hio. auto.
Qed.

(** C3: [enqueue] puts an item at the back and the runner pops the
    front; along any schedule the output of processing, done and to
    come, is that of the items in the order [enqueue] took them in; and
    one item gives its detach calls in stored order, then its attach
    calls in stored order. *)
Theorem worker_fifo_detach_then_attach :
  (forall w self,
     interrupted self = false -> work (enqueue w self).1 = work self ++ [w])
  /\
  (forall self w rest,
     runner self = RunLoopTop -> work self = w :: rest ->
     run_step zmq disk self
     = ({| work := rest; interrupted := interrupted self;
           runner := RunDetach w (detach w) |}, [LogPopped w])) /\
  (forall evs,
     expected_io disk (exec zmq disk evs (new_SendUpdatesWorker, []))
     = flat_map (item_io disk) (accepted false evs)) /\
  (forall w rest intr io,
     exec zmq disk (repeat EvRunner (item_steps w))
       ({| work := w :: rest; interrupted := intr; runner := RunLoopTop |},
        io)
     = ({| work := rest; interrupted := intr; runner := RunLoopTop |},
        io ++ LogPopped w
           :: blocks_io disk w PREFIX_DETACH (detach w)
           ++ blocks_io disk w PREFIX_ATTACH (attach w)
           ++ [LogFinished w])).
Proof.
  split; [|split; [|split]].
  - intros w self Hi. unfold enqueue. rewrite Hi. reflexivity.
  - intros self w rest Hr Hwk. unfold run_step. rewrite Hr, Hwk.
    reflexivity.
  - intros evs. rewrite exec_expected_io. reflexivity.
  - intros w rest intr io. apply run_one_item.
Qed.

(** C5: a block that cannot be read gives its log line and no
    notification, and throws nothing, so no caller hears of it; the
    loop goes on with the blocks after it, in the detach list as in the
    attach list; every item is taken to its last block and reported
    finished, a line or a notification for each block; and no action of
    any thread makes the runner throw. *)
Theorem read_failure_skips_one_block :
  (forall zmq' games prefix token p,
     disk p = None ->
     SendUpdatesOneBlock zmq' disk games prefix token p
     = Returns [LogReadFailed p]) /\
  (forall w wk intr io before p after,
     disk p = None ->
     exec zmq disk (repeat EvRunner (length (before ++ p :: after)))
       ({| work := wk; interrupted := intr;
           runner := RunDetach w (before ++ p :: after) |}, io)
     = ({| work := wk; interrupted := intr; runner := RunDetach w [] |},
        io ++ blocks_io disk w PREFIX_DETACH before
           ++ LogReadFailed p :: blocks_io disk w PREFIX_DETACH after)) /\
  (forall w wk intr io before p after,
     disk p = None ->
     exec zmq disk (repeat EvRunner (length (before ++ p :: after)))
       ({| work := wk; interrupted := intr;
           runner := RunAttach w (before ++ p :: after) |}, io)
     = ({| work := wk; interrupted := intr; runner := RunAttach w [] |},
        io ++ blocks_io disk w PREFIX_ATTACH before
           ++ LogReadFailed p :: blocks_io disk w PREFIX_ATTACH after)) /\
  (forall w rest intr io,
     exec zmq disk (repeat EvRunner (item_steps w))
       ({| work := w :: rest; interrupted := intr; runner := RunLoopTop |},
        io)
     = ({| work := rest; interrupted := intr; runner := RunLoopTop |},
        io ++ item_io disk w)) /\
  (forall evs st,
     runner_thrown (runner st.1) = false ->
     runner_thrown (runner (exec zmq disk evs st).1) = false).
Proof.
  split; [|split; [|split; [|split]]].
  - intros zmq' games prefix token p Hp. unfold SendUpdatesOneBlock.
    rewrite Hp. reflexivity.
  - intros w wk intr io before p after Hp. rewrite run_detach_all.
    unfold blocks_io. rewrite map_app. simpl. rewrite Hp. reflexivity.
  - intros w wk intr io before p after Hp. rewrite run_attach_all.
    unfold blocks_io. rewrite map_app. simpl. rewrite Hp. reflexivity.
  - intros w rest intr io. apply run_one_item.
  - intros evs st. apply exec_not_thrown.
Qed.

End WorkerFacts.

(** C7: with the interrupted flag set, [enqueue] leaves the queue and
    the runner as they are and only logs, and [game_sendupdates] returns
    its result all the same; with the flag not set, the item goes to the
    back of the queue and a parked runner is woken. *)
Theorem enqueue_after_interrupt :
  (forall w self,
     interrupted self = true -> enqueue w self = (self, [LogNotEnqueueing w]))
  /\
  (forall w self,
     interrupted self = false ->
     enqueue w self
     = ({| work := work self ++ [w]; interrupted := false;
           runner := notify_all (runner self) |}, [LogEnqueueing w]) /\
     (runner self = RunWaiting -> runner (enqueue w self).1 = RunLoopTop))
  /\
  (forall (Ext : External) fuel node request token w result worker,
     game_sendupdates_work fuel node request token = Returns (w, result) ->
     g_send_updates_worker node = Some worker ->
     interrupted worker = true ->
     (game_sendupdates fuel node request token).1 = Returns result /\
     g_send_updates_worker (game_sendupdates fuel node request token).2
     = Some worker).
Proof.
  split; [|split].
  - intros w self Hi. unfold enqueue. rewrite Hi. reflexivity.
  - intros w self Hi. unfold enqueue. rewrite Hi. simpl.
    split; [reflexivity|]. intros ->. reflexivity.
  - intros Ext fuel node request token w result worker Hwork Hworker Hi.
    unfold game_sendupdates. rewrite Hwork, Hworker.
    unfold enqueue. rewrite Hi. simpl. split; reflexivity.
Qed.

(** ** The claims on the example chain *)

Lemma reaches_address_le idx p q :
  (forall a bi b, idx !! a = Some bi -> pprev bi = Some b ->
                  (b < a)%positive) ->
  reaches idx p q ->
  forall c a, p = Some c -> q = Some a -> (a <= c)%positive.
Proof.
  intros Hlow. induction 1 as [p|a0 bi q Hbi Hr IH]; intros c a Hp Hq.
  - assert (c = a) as -> by congruence. lia.
  - injection Hp as ->. destruct (pprev bi) as [b|] eqn:Hprev.
    + specialize (IH b a eq_refl Hq).
      specialize (Hlow c bi b Hbi Hprev). lia.
    + inversion Hr; congruence.
Qed.

Lemma parents_at_lower_addresses_acyclic idx :
  parents_at_lower_addresses idx = true -> acyclic idx.
Proof.
  unfold parents_at_lower_addresses. rewrite forallb_forall.
  intros Hall.
  assert (Hlow : forall a bi b, idx !! a = Some bi -> pprev bi = Some b ->
                                (b < a)%positive).
  { intros a bi b Hbi Hprev.
    specialize (Hall (a, bi)). simpl in Hall. rewrite Hprev in Hall.
    apply Pos.ltb_lt, Hall, list_elem_of_In, elem_of_map_to_list, Hbi. }
  intros a bi Hbi Hr.
  destruct (pprev bi) as [b|] eqn:Hprev; [|inversion Hr].
  pose proof (reaches_address_le idx _ _ Hlow Hr b a eq_refl eq_refl).
  specialize (Hlow a bi b Hbi Hprev). lia.
Qed.

Ltac example_walk :=
  repeat first
    [ apply walk_arrived
    | eapply walk_visit; [discriminate | vm_compute; reflexivity | simpl] ].

Ltac example_reaches :=
  repeat first
    [ apply reaches_here
    | eapply reaches_parent; [vm_compute; reflexivity | simpl] ].

Example example_detach :
  GetDetachSequence (Ext := spec_external 8) 10 example_index
    (Some 4%positive) (Some 3%positive) = Returns [4%positive].
Proof. vm_compute. reflexivity. Qed.

Example example_attach_walk :
  GetDetachSequence (Ext := spec_external 8) 10 example_index
    (Some 6%positive) (Some 3%positive) = Returns [6%positive; 5%positive].
Proof. vm_compute. reflexivity. Qed.

Example example_call :
  game_sendupdates (Ext := spec_external 8) 10 (example_node example_index)
    example_request "0f" = (Returns example_result, example_node_after).
Proof. vm_compute. reflexivity. Qed.

Example example_call_pruned :
  game_sendupdates (Ext := spec_external 8) 10
    (example_node example_index_pruned) example_request "0f"
  = (Throws RPC_DATABASE_ERROR "detached block has no data",
     example_node example_index_pruned).
Proof. vm_compute. reflexivity. Qed.

Example example_run :
  exec example_zmq example_disk example_schedule (new_SendUpdatesWorker, [])
  = (example_worker_interrupted,
     [LogEnqueueing example_work; LogPopped example_work; LogReadFailed 4;
      SendBlockNotifications {[ "b" ]} PREFIX_ATTACH "0f"
        {| blockData := 5 |} 5;
      SendBlockNotifications {[ "b" ]} PREFIX_ATTACH "0f"
        {| blockData := 6 |} 6;
      LogFinished example_work; LogQueueEmpty true]).
Proof. vm_compute. reflexivity. Qed.

Lemma GetDetachSequence_refines_walk_witness :
  reaches example_index (Some 4%positive) (Some 3%positive) /\
  (exists l,
     WalkToAncestor example_index (Some 3%positive) (Some 4%positive) l /\
     (forall a, head l = Some a -> Some 4%positive = Some a) /\
     forall fuel, length l <= fuel ->
       GetDetachSequence (Ext := spec_external 8) fuel example_index
         (Some 4%positive) (Some 3%positive) =
       if forallb (block_has_data (Ext := spec_external 8) example_index) l
       then Returns l
       else Throws RPC_DATABASE_ERROR "detached block has no data") /\
  (exists fromIndex toIndex ancestor walkFrom walkTo w worker,
     mapBlockIndex (example_node example_index) !! fromblock example_request
       = Some fromIndex /\
     mapBlockIndex (example_node example_index) !! res_toblock example_result
       = Some toIndex /\
     LastCommonAncestor_spec example_index fromIndex toIndex
       = Some ancestor /\
     WalkToAncestor example_index (Some ancestor) (Some fromIndex)
       walkFrom /\
     WalkToAncestor example_index (Some ancestor) (Some toIndex) walkTo /\
     detach w = walkFrom /\
     attach w = reverse walkTo /\
     g_send_updates_worker (example_node example_index) = Some worker /\
     g_send_updates_worker example_node_after = Some (enqueue w worker).1)
  /\
  (exists node',
     game_sendupdates (Ext := spec_external 8) 10
       (example_node example_index) example_request "0f"
     = (Returns {| res_toblock := 105; res_ancestor := 102;
                   res_reqtoken := "0f";
                   steps_detach := length [4%positive];
                   steps_attach
                     := length (reverse [6%positive; 5%positive]) |},
        node') /\
     g_send_updates_worker node'
     = Some (enqueue {| reqtoken := "0f"; detach := [4%positive];
                        attach := reverse [6%positive; 5%positive];
                        trackedGames := {[ gameid example_request ]} |}
               new_SendUpdatesWorker).1).
Proof.
  assert (Hr : reaches example_index (Some 4%positive) (Some 3%positive))
    by example_reaches.
  split; [exact Hr|]. split; [|split].
  - exact (proj1 (@GetDetachSequence_refines_walk (spec_external 8))
             example_index (Some 4%positive) (Some 3%positive) Hr).
  - exact (proj1 (proj2 (@GetDetachSequence_refines_walk (spec_external 8)))
             10 (example_node example_index) example_request "0f"
             example_result example_node_after example_call).
  - apply (proj2 (proj2 (@GetDetachSequence_refines_walk (spec_external 8)))
             10 (example_node example_index) example_request "0f"
             105%N 4%positive 6%positive
             (example_block 103 (Some 3%positive) 29)
             (example_block 105 (Some 5%positive) 29)
             3%positive (example_block 102 (Some 2%positive) 13)
             [4%positive] [6%positive; 5%positive]
             {| tracked := {[ "a" ]} |} new_SendUpdatesWorker).
    + reflexivity.
    + vm_compute; reflexivity.
    + vm_compute; reflexivity.
    + vm_compute; reflexivity.
    + vm_compute; reflexivity.
    + vm_compute; reflexivity.
    + vm_compute; reflexivity.
    + vm_compute; reflexivity.
    + vm_compute; reflexivity.
    + example_walk.
    + example_walk.
    + simpl; lia.
    + simpl; lia.
    + vm_compute; reflexivity.
    + vm_compute; reflexivity.
    + reflexivity.
    + reflexivity.
Defined.

Lemma GetDetachSequence_chain_segment_witness :
  reaches example_index (Some 6%positive) (Some 3%positive) /\
  (forall fuel l,
     GetDetachSequence (Ext := spec_external 8) fuel example_index
       (Some 6%positive) (Some 3%positive) = Returns l ->
     (exists a rest, l = a :: rest /\ Some 6%positive = Some a) /\
     linked example_index l (Some 3%positive)) /\
  GetDetachSequence (Ext := spec_external 8) 10 example_index
    (Some 6%positive) (Some 3%positive) = Returns [6%positive; 5%positive]
  /\
  linked example_index [6%positive; 5%positive] (Some 3%positive).
Proof.
  assert (Hr : reaches example_index (Some 6%positive) (Some 3%positive))
    by example_reaches.
  destruct (@GetDetachSequence_chain_segment (spec_external 8) example_index
              (Some 6%positive) (Some 3%positive) Hr ltac:(discriminate))
    as (Hany & l & Hw & _ & Hlinked & Hreturns & _).
  assert (Hl : l = [6%positive; 5%positive]).
  { apply (walk_unique example_index (Some 3%positive) (Some 6%positive));
      [exact Hw | example_walk]. }
  subst l.
  split; [exact Hr|]. split; [exact Hany|]. split; [|exact Hlinked].
  apply Hreturns; [simpl; lia | vm_compute; reflexivity].
Defined.

(** The detach list of the example holds the old tip C, and the attach
    list the new tip E: neither is strictly between tip and ancestor. *)
Lemma reorg_lists_hold_the_tips :
  game_sendupdates (Ext := spec_external 8) 10 (example_node example_index)
    example_request "0f" = (Returns example_result, example_node_after) /\
  g_send_updates_worker example_node_after
    = Some {| work := [example_work]; interrupted := false;
              runner := RunLoopTop |} /\
  ~ (forall x, x ∈ detach example_work <->
       strictly_between example_index (Some 4%positive) (Some 3%positive) x)
  /\
  ~ (forall x, x ∈ attach example_work <->
       strictly_between example_index (Some 6%positive) (Some 3%positive) x).
Proof.
  split; [exact example_call|]. split; [reflexivity|]. split.
  - intros H. destruct (proj1 (H 4%positive)) as [Hne _].
    + apply list_elem_of_here.
    + apply Hne. reflexivity.
  - intros H. destruct (proj1 (H 6%positive)) as [Hne _].
    + apply list_elem_of_further, list_elem_of_here.
    + apply Hne. reflexivity.
Qed.

Lemma reorg_lists_tip_to_ancestor_witness :
  acyclic example_index /\
  exists fromIndex toIndex ancestor w worker,
    mapBlockIndex (example_node example_index) !! fromblock example_request
      = Some fromIndex /\
    mapBlockIndex (example_node example_index) !! res_toblock example_result
      = Some toIndex /\
    LastCommonAncestor_spec example_index fromIndex toIndex = Some ancestor /\
    g_send_updates_worker (example_node example_index) = Some worker /\
    g_send_updates_worker example_node_after = Some (enqueue w worker).1 /\
    (ancestor ∉ detach w) /\ (ancestor ∉ attach w) /\
    (forall x, x ∈ detach w <->
       from_top_above example_index (Some fromIndex) (Some ancestor) x) /\
    (forall x, x ∈ attach w <->
       from_top_above example_index (Some toIndex) (Some ancestor) x) /\
    linked example_index (detach w) (Some ancestor) /\
    linked example_index (reverse (attach w)) (Some ancestor).
Proof.
  assert (Hacyc : acyclic example_index)
    by (apply parents_at_lower_addresses_acyclic; vm_compute; reflexivity).
  split; [exact Hacyc|].
  exact (@reorg_lists_tip_to_ancestor (spec_external 8) 10
           (example_node example_index) example_request "0f"
           example_result example_node_after Hacyc example_call).
Defined.

Lemma game_sendupdates_data_unavailable_witness :
  block_has_data (Ext := spec_external 8) example_index_pruned 5%positive
    = false /\
  exists msg,
    game_sendupdates (Ext := spec_external 8) 10
      (example_node example_index_pruned) example_request "0f"
    = (Throws RPC_DATABASE_ERROR msg, example_node example_index_pruned).
Proof.
  split; [vm_compute; reflexivity|].
  apply (@game_sendupdates_data_unavailable (spec_external 8) 10
           (example_node example_index_pruned) example_request "0f"
           105%N 4%positive 6%positive
           (example_block 103 (Some 3%positive) 29)
           (example_block 105 (Some 5%positive) 29)
           3%positive [4%positive] [6%positive; 5%positive] 5%positive).
  - reflexivity.
  - vm_compute; reflexivity.
  - vm_compute; reflexivity.
  - vm_compute; reflexivity.
  - vm_compute; reflexivity.
  - vm_compute; reflexivity.
  - example_walk.
  - example_walk.
  - simpl; lia.
  - simpl; lia.
  - set_solver.
  - vm_compute; reflexivity.
Defined.

Lemma same_tip_no_steps_witness :
  exists node',
    game_sendupdates (Ext := spec_external 8) 0 (example_node example_index)
      example_request_same "0f"
    = (Returns {| res_toblock := 103; res_ancestor := 103;
                  res_reqtoken := "0f";
                  steps_detach := 0; steps_attach := 0 |}, node') /\
    g_send_updates_worker node'
    = Some (enqueue {| reqtoken := "0f"; detach := []; attach := [];
                       trackedGames := {[ "b" ]} |}
              new_SendUpdatesWorker).1.
Proof.
  apply (proj2 (same_tip_no_steps 8 0 (example_node example_index)
                  example_request_same "0f" 4%positive
                  (example_block 103 (Some 3%positive) 29)
                  eq_refl ltac:(vm_compute; reflexivity)
                  ltac:(vm_compute; reflexivity))
           {| tracked := {[ "a" ]} |} new_SendUpdatesWorker).
  - vm_compute; reflexivity.
  - reflexivity.
  - reflexivity.
Defined.

(** The notifier tracks game "a"; the request names game "b"; the queued
    item holds "b" and not the tracked set. *)
Lemma work_item_games_not_the_registry :
  GetGameBlocksNotifier
    (g_zmq_notification_interface (example_node example_index))
    = Returns {| tracked := {[ "a" ]} |} /\
  game_sendupdates (Ext := spec_external 8) 10 (example_node example_index)
    example_request "0f" = (Returns example_result, example_node_after) /\
  g_send_updates_worker example_node_after
    = Some {| work := [example_work]; interrupted := false;
              runner := RunLoopTop |} /\
  trackedGames example_work <> {[ "a" ]} /\
  ~ (trackedGames example_work ⊆ {[ "a" ]}).
Proof.
  split; [reflexivity|]. split; [exact example_call|].
  split; [reflexivity|].
  assert (Hsub : ~ (trackedGames example_work ⊆ {[ "a" ]})).
  { simpl. intros H.
    assert (Hb : "b" ∈ ({[ "a" ]} : gset string))
      by (apply H, elem_of_singleton; reflexivity).
    apply elem_of_singleton in Hb. discriminate Hb. }
  split; [|exact Hsub].
  intros H. apply Hsub. rewrite H. reflexivity.
Qed.

Lemma work_item_games_from_request_witness :
  exists w worker,
    trackedGames w = {[ gameid example_request ]} /\
    g_send_updates_worker (example_node example_index) = Some worker /\
    g_send_updates_worker example_node_after = Some (enqueue w worker).1.
Proof.
  exact (proj1 (@work_item_games_from_request (spec_external 8))
           10 (example_node example_index) example_request "0f"
           example_result example_node_after example_call).
Defined.

Lemma worker_drains_before_exit_witness :
  GetGameBlocksNotifier example_zmq = Returns {| tracked := {[ "a" ]} |} /\
  runner (exec example_zmq example_disk example_schedule
            (new_SendUpdatesWorker, [])).1 = RunReturned /\
  work (exec example_zmq example_disk example_schedule
          (new_SendUpdatesWorker, [])).1 = [] /\
  interrupted (exec example_zmq example_disk example_schedule
                 (new_SendUpdatesWorker, [])).1 = true /\
  dispatched (exec example_zmq example_disk example_schedule
                (new_SendUpdatesWorker, [])).2
  = flat_map (item_io example_disk) [example_work].
Proof.
  pose proof (worker_drains_before_exit example_zmq
                {| tracked := {[ "a" ]} |} eq_refl example_disk)
    as (_ & Hsafe & _ & Hdrain).
  split; [reflexivity|].
  destruct (Hdrain [example_work] 8) as (Hret & _); [simpl; lia|].
  split; [exact Hret|].
  exact (Hsafe example_schedule Hret).
Defined.

Lemma worker_fifo_detach_then_attach_witness :
  GetGameBlocksNotifier example_zmq = Returns {| tracked := {[ "a" ]} |} /\
  expected_io example_disk
    (exec example_zmq example_disk
       [EvEnqueue example_work; EvRunner; EvRunner;
        EvEnqueue {| reqtoken := "1e"; detach := []; attach := [];
                     trackedGames := {[ "b" ]} |}]
       (new_SendUpdatesWorker, []))
  = flat_map (item_io example_disk)
      [example_work;
       {| reqtoken := "1e"; detach := []; attach := [];
          trackedGames := {[ "b" ]} |}].
Proof.
  pose proof (worker_fifo_detach_then_attach example_zmq
                {| tracked := {[ "a" ]} |} eq_refl example_disk)
    as (_ & _ & Hfifo & _).
  split; [reflexivity|].
  exact (Hfifo [EvEnqueue example_work; EvRunner; EvRunner;
                EvEnqueue {| reqtoken := "1e"; detach := []; attach := [];
                             trackedGames := {[ "b" ]} |}]).
Defined.

Lemma read_failure_skips_one_block_witness :
  example_disk 4%positive = None /\
  SendUpdatesOneBlock None example_disk {[ "b" ]} PREFIX_DETACH "0f"
    4%positive = Returns [LogReadFailed 4%positive] /\
  exec example_zmq example_disk (repeat EvRunner 3)
    ({| work := []; interrupted := false;
        runner := RunAttach example_work [5; 4; 6]%positive |}, [])
  = ({| work := []; interrupted := false;
        runner := RunAttach example_work [] |},
     [SendBlockNotifications {[ "b" ]} PREFIX_ATTACH "0f"
        {| blockData := 5 |} 5;
      LogReadFailed 4;
      SendBlockNotifications {[ "b" ]} PREFIX_ATTACH "0f"
        {| blockData := 6 |} 6]).
Proof.
  pose proof (read_failure_skips_one_block example_zmq
                {| tracked := {[ "a" ]} |} eq_refl example_disk)
    as (Hone & _ & Hattach & _ & _).
  split; [reflexivity|]. split.
  - exact (Hone None {[ "b" ]} PREFIX_DETACH "0f" 4%positive eq_refl).
  - exact (Hattach example_work [] false [] [5%positive] 4%positive
             [6%positive] eq_refl).
Defined.

Lemma enqueue_after_interrupt_witness :
  interrupted example_worker_interrupted = true /\
  enqueue example_work example_worker_interrupted
  = (example_worker_interrupted, [LogNotEnqueueing example_work]) /\
  enqueue example_work
    {| work := []; interrupted := false; runner := RunWaiting |}
  = ({| work := [example_work]; interrupted := false;
        runner := RunLoopTop |}, [LogEnqueueing example_work]).
Proof.
  split; [reflexivity|]. split.
  - exact (proj1 enqueue_after_interrupt example_work
             example_worker_interrupted eq_refl).
  - exact (proj1 (proj1 (proj2 enqueue_after_interrupt) example_work
             {| work := []; interrupted := false; runner := RunWaiting |}
             eq_refl)).
Defined.

(** ** More on the walk *)

Section WalkMore.
Context `{Ext : External}.
Variable idx : gmap positive CBlockIndex.

(** From a block of a walk, the rest of the walk is the walk from that
    block. *)
Lemma walk_from_member ancestor p l x :
  WalkToAncestor idx ancestor p l -> x ∈ l ->
  exists rest,
    WalkToAncestor idx ancestor (Some x) (x :: rest) /\
    length (x :: rest) <= length l.
Proof.
  induction 1 as [|a bi l Hne Hbi Hw IH]; intros Hx.
  - inversion Hx.
  - apply elem_of_cons in Hx as [->|Hx].
    + exists l. split; [|reflexivity].
      apply (walk_visit idx ancestor a bi); assumption.
    + destruct (IH Hx) as (rest & Hrest & Hlen).
      exists rest. split; [exact Hrest|]. simpl in *. lia.
Qed.

Lemma walk_NoDup ancestor p l :
  WalkToAncestor idx ancestor p l -> NoDup l.
Proof.
  induction 1 as [|a bi l Hne Hbi Hw IH]; [apply NoDup_nil_2|].
  apply NoDup_cons_2; [|exact IH].
  intros Ha.
  destruct (walk_from_member ancestor (pprev bi) l a Hw Ha)
    as (rest & Hrest & Hlen).
  assert (Hall : WalkToAncestor idx ancestor (Some a) (a :: l))
    by (apply (walk_visit idx ancestor a bi); assumption).
  pose proof (walk_unique idx ancestor (Some a) _ _ Hrest Hall) as Heq.
  injection Heq as ->. simpl in Hlen. lia.
Qed.

Lemma walk_in_index ancestor p l x :
  WalkToAncestor idx ancestor p l -> x ∈ l -> is_Some (idx !! x).
Proof.
  induction 1 as [|a bi l Hne Hbi Hw IH]; intros Hx.
  - inversion Hx.
  - apply elem_of_cons in Hx as [->|Hx]; [eauto | auto].
Qed.

Lemma walk_length ancestor p l :
  WalkToAncestor idx ancestor p l -> length l <= size idx.
Proof.
  intros Hw.
  rewrite <- (size_list_to_set (C := gset positive) l)
    by exact (walk_NoDup ancestor p l Hw).
  rewrite <- (size_dom idx).
  apply subseteq_size. intros x Hx.
  apply elem_of_list_to_set in Hx. apply elem_of_dom.
  exact (walk_in_index ancestor p l x Hw Hx).
Qed.

(** The loop along the first blocks of a parent chain: while they are
    not the ancestor and have data they are collected, and the first
    one without data ends the call. *)
Lemma GetDetachSequence_loop_along ancestor stop p l :
  WalkToAncestor idx stop p l ->
  Forall (fun a => Some a <> ancestor) l ->
  forall fuel acc,
    GetDetachSequence_loop (length l + fuel) idx p ancestor acc =
    if forallb (block_has_data idx) l
    then GetDetachSequence_loop fuel idx stop ancestor (acc ++ l)
    else Throws RPC_DATABASE_ERROR "detached block has no data".
Proof.
  induction 1 as [|a bi l Hne Hbi Hw IH]; intros Hall fuel acc.
  - simpl. rewrite app_nil_r. reflexivity.
  - apply Forall_cons in Hall as [Ha Hall].
    simpl. rewrite decide_False by exact Ha. rewrite Hbi.
    unfold block_has_data at 1. rewrite Hbi.
    destruct (have_data bi); simpl; [|reflexivity].
    rewrite IH by exact Hall. rewrite <- app_assoc. reflexivity.
Qed.

(** X1: a sequence that [GetDetachSequence] returns holds no block
    twice, and every block of it is an object of the index. *)
Theorem GetDetachSequence_no_repeats fuel from ancestor l :
  GetDetachSequence fuel idx from ancestor = Returns l ->
  NoDup l /\ forall x, x ∈ l -> is_Some (idx !! x).
Proof.
  intros Hcall. apply GetDetachSequence_returns in Hcall as [Hw _].
  split; [exact (walk_NoDup ancestor from l Hw)|].
  intros x. exact (walk_in_index ancestor from l x Hw).
Qed.

(** X2: when the ancestor is reachable, the loop needs no more turns
    than the index has objects: with that much fuel, or more, the call
    returns the walk or throws for a block without data. *)
Theorem GetDetachSequence_ends_within_index from ancestor :
  reaches idx from ancestor ->
  exists l,
    WalkToAncestor idx ancestor from l /\ length l <= size idx /\
    forall fuel, size idx <= fuel ->
      GetDetachSequence fuel idx from ancestor =
      if forallb (block_has_data idx) l then Returns l
      else Throws RPC_DATABASE_ERROR "detached block has no data".
Proof.
  intros Hr. destruct (reaches_walk idx from ancestor Hr) as [l Hw].
  pose proof (walk_length ancestor from l Hw) as Hlen.
  exists l. split; [exact Hw|]. split; [exact Hlen|].
  intros fuel Hfuel. apply GetDetachSequence_walk; [exact Hw | lia].
Qed.

(** X3: when the parent chain of [from] ends at the root without
    meeting the ancestor, the call trips [assert (pindex != nullptr)],
    unless a block on the way has no data, which throws first. *)
Theorem GetDetachSequence_past_the_root from ancestor l fuel :
  WalkToAncestor idx None from l ->
  ancestor ∉ l ->
  length l < fuel ->
  GetDetachSequence fuel idx from (Some ancestor) =
  if forallb (block_has_data idx) l then AssertionFailed
  else Throws RPC_DATABASE_ERROR "detached block has no data".
Proof.
  intros Hw Hnot Hfuel. unfold GetDetachSequence.
  replace fuel with (length l + S (fuel - length l - 1)) by lia.
  rewrite (GetDetachSequence_loop_along (Some ancestor) None from l Hw).
  - reflexivity.
  - apply Forall_forall. intros x Hx [= ->]. exact (Hnot Hx).
Qed.

(** X4: the call throws at the first block without data and looks no
    further: whatever the parent link of that block is, and whether or
    not the ancestor can be reached beyond it. *)
Theorem GetDetachSequence_fails_fast from ancestor l b bi fuel :
  WalkToAncestor idx (Some b) from l ->
  Forall (fun a => Some a <> ancestor) l ->
  Some b <> ancestor ->
  idx !! b = Some bi -> have_data bi = false ->
  length l < fuel ->
  GetDetachSequence fuel idx from ancestor =
  Throws RPC_DATABASE_ERROR "detached block has no data".
Proof.
  intros Hw Hall Hb Hbi Hdata Hfuel. unfold GetDetachSequence.
  replace fuel with (length l + S (fuel - length l - 1)) by lia.
  rewrite (GetDetachSequence_loop_along ancestor (Some b) from l Hw Hall).
  destruct (forallb (block_has_data idx) l); [|reflexivity].
  simpl. rewrite decide_False by exact Hb. rewrite Hbi, Hdata. reflexivity.
Qed.

End WalkMore.

(** ** More on the handlers *)

Section HandlerMore.
Context `{Ext : External}.

(** X5: an unknown block is reported before anything else is looked at:
    [fromblock] first, then [toblock], then the data of [fromblock];
    each time the node stays as it is. *)
Theorem game_sendupdates_block_not_found fuel node request token toBlock :
  target_block node request = Returns toBlock ->
  (mapBlockIndex node !! fromblock request = None ->
   game_sendupdates fuel node request token
   = (Throws RPC_INVALID_ADDRESS_OR_KEY "fromblock not found", node)) /\
  (forall fromIndex,
     mapBlockIndex node !! fromblock request = Some fromIndex ->
     mapBlockIndex node !! toBlock = None ->
     game_sendupdates fuel node request token
     = (Throws RPC_INVALID_ADDRESS_OR_KEY "toblock not found", node)) /\
  (forall fromIndex toIndex fromBi,
     mapBlockIndex node !! fromblock request = Some fromIndex ->
     mapBlockIndex node !! toBlock = Some toIndex ->
     blockIndex node !! fromIndex = Some fromBi ->
     have_data fromBi = false ->
     game_sendupdates fuel node request token
     = (Throws RPC_DATABASE_ERROR "fromblock has no data", node)).
Proof.
  intros Htarget. unfold game_sendupdates, game_sendupdates_work.
  rewrite Htarget. simpl. split; [|split].
  - intros ->. reflexivity.
  - intros fromIndex -> ->. reflexivity.
  - intros fromIndex toIndex fromBi -> -> HfromBi Hdata.
    apply deref_returns in HfromBi. rewrite HfromBi. simpl.
    rewrite Hdata. reflexivity.
Qed.

(** X6: a call never touches the block index, the hash map, the tip or
    the notifier; one that does not return a result leaves the whole
    node as it was; one that returns adds one line to the log and at
    most one item to the queue, at its back. *)
Theorem game_sendupdates_frame fuel node request token :
  blockIndex (game_sendupdates fuel node request token).2
    = blockIndex node /\
  mapBlockIndex (game_sendupdates fuel node request token).2
    = mapBlockIndex node /\
  chainActive_Tip (game_sendupdates fuel node request token).2
    = chainActive_Tip node /\
  g_zmq_notification_interface (game_sendupdates fuel node request token).2
    = g_zmq_notification_interface node /\
  ((forall result,
      (game_sendupdates fuel node request token).1 <> Returns result) ->
   (game_sendupdates fuel node request token).2 = node) /\
  (forall result,
     (game_sendupdates fuel node request token).1 = Returns result ->
     exists w worker worker' line,
       g_send_updates_worker node = Some worker /\
       g_send_updates_worker (game_sendupdates fuel node request token).2
         = Some worker' /\
       debug_log (game_sendupdates fuel node request token).2
         = debug_log node ++ [line] /\
       (work worker' = work worker \/ work worker' = work worker ++ [w])).
Proof.
  unfold game_sendupdates.
  destruct (game_sendupdates_work fuel node request token)
    as [[w result]| | | |]; simpl;
    try (repeat split; try reflexivity; intros; discriminate).
  destruct (g_send_updates_worker node) as [worker|] eqn:Hworker; simpl.
  - unfold enqueue. destruct (interrupted worker); simpl.
    + repeat split; try reflexivity.
      * intros Hno. exfalso. apply (Hno result). reflexivity.
      * intros result' _. exists w, worker, worker, (LogNotEnqueueing w).
        repeat split. left. reflexivity.
    + repeat split; try reflexivity.
      * intros Hno. exfalso. apply (Hno result). reflexivity.
      * intros result' _. eexists w, worker, _, (LogEnqueueing w).
        repeat split. right. reflexivity.
  - repeat split; try reflexivity. intros; discriminate.
Qed.

(** X7: the notifier is looked for last: with both blocks found, their
    data and that of the walks in place, and no notifier set, the call
    throws [RPC_MISC_ERROR] and queues nothing. *)
Theorem game_sendupdates_without_notifier fuel node request token
    toBlock fromIndex toIndex fromBi toBi ancestor ancBi det att code msg :
  target_block node request = Returns toBlock ->
  mapBlockIndex node !! fromblock request = Some fromIndex ->
  mapBlockIndex node !! toBlock = Some toIndex ->
  blockIndex node !! fromIndex = Some fromBi -> have_data fromBi = true ->
  blockIndex node !! toIndex = Some toBi -> have_data toBi = true ->
  LastCommonAncestor (blockIndex node) fromIndex toIndex = Some ancestor ->
  blockIndex node !! ancestor = Some ancBi ->
  WalkToAncestor (blockIndex node) (Some ancestor) (Some fromIndex) det ->
  WalkToAncestor (blockIndex node) (Some ancestor) (Some toIndex) att ->
  length det <= fuel -> length att <= fuel ->
  forallb (block_has_data (blockIndex node)) det = true ->
  forallb (block_has_data (blockIndex node)) att = true ->
  GetGameBlocksNotifier (g_zmq_notification_interface node)
    = Throws code msg ->
  code = RPC_MISC_ERROR /\
  game_sendupdates fuel node request token = (Throws code msg, node).
Proof.
  intros Htarget Hfrom Hto HfromBi HfromData HtoBi HtoData Hanc HancBi
    Hdet Hatt Hfd Hfa Hdd Hda Hzmq.
  split.
  - unfold GetGameBlocksNotifier in Hzmq.
    destruct (g_zmq_notification_interface node) as [iface|];
      [destruct (gameBlocksNotifier iface)|]; congruence.
  - unfold game_sendupdates.
    rewrite (game_sendupdates_work_runs fuel node request token toBlock
               fromIndex toIndex fromBi toBi ancestor det att) by assumption.
    rewrite Hdd, Hda. apply deref_returns in HancBi.
    simpl. rewrite HancBi. simpl. rewrite Hzmq. reflexivity.
Qed.

(** X8: a call without [toblock] is the call with the hash of the tip
    of the active chain. *)
Theorem game_sendupdates_default_toblock fuel node game from token tip bi :
  chainActive_Tip node = Some tip ->
  blockIndex node !! tip = Some bi ->
  game_sendupdates fuel node
    {| gameid := game; fromblock := from; toblock := None |} token
  = game_sendupdates fuel node
      {| gameid := game; fromblock := from;
         toblock := Some (phashBlock bi) |} token.
Proof.
  intros Htip Hbi. unfold game_sendupdates, game_sendupdates_work.
  unfold target_block. simpl. rewrite Htip.
  apply deref_returns in Hbi. rewrite Hbi. reflexivity.
Qed.

(** X9: when the common ancestor is the old tip itself nothing is
    detached, and when it is the new tip nothing is attached. *)
Theorem game_sendupdates_straight_line fuel node request token result node'
    fromIndex toIndex :
  game_sendupdates fuel node request token = (Returns result, node') ->
  mapBlockIndex node !! fromblock request = Some fromIndex ->
  mapBlockIndex node !! res_toblock result = Some toIndex ->
  (LastCommonAncestor (blockIndex node) fromIndex toIndex = Some fromIndex ->
   steps_detach result = 0) /\
  (LastCommonAncestor (blockIndex node) fromIndex toIndex = Some toIndex ->
   steps_attach result = 0).
Proof.
  intros Hcall Hfrom Hto.
  apply game_sendupdates_returns in Hcall as (w & worker & Hwork & _).
  apply game_sendupdates_work_returns in Hwork
    as (toBlock & fromIndex' & toIndex' & fromBi & toBi & ancestor & ancBi
        & det & att & notifier & _ & Hfrom' & Hto' & _ & _ & _ & _
        & Hanc & Hdet & Hatt & _ & _ & -> & ->).
  simpl in Hto. 
  assert (fromIndex' = fromIndex) as -> by congruence.
  assert (toIndex' = toIndex) as -> by congruence.
  apply GetDetachSequence_returns in Hdet as [Hdet _].
  apply GetDetachSequence_returns in Hatt as [Hatt _].
  simpl. split; intros Hline.
  - assert (ancestor = fromIndex) as -> by congruence.
    inversion Hdet; [reflexivity | congruence].
  - assert (ancestor = toIndex) as -> by congruence.
    inversion Hatt; [reflexivity | congruence].
Qed.

End HandlerMore.

Section HandlerAndWorker.
Context `{Ext : External}.

(** X10: a call that returns, on a worker that is idle and not
    interrupted, followed by the runner's actions for one item: the
    item is processed to its end, the queue is empty again, and the
    counts in the result are the numbers of detach and attach calls
    made, each under the token of the result. *)
Theorem game_sendupdates_then_run fuel node request token result node'
    disk r :
  game_sendupdates fuel node request token = (Returns result, node') ->
  g_send_updates_worker node
    = Some {| work := []; interrupted := false; runner := r |} ->
  r = RunLoopTop \/ r = RunWaiting ->
  exists w worker',
    g_send_updates_worker node' = Some worker' /\
    work worker' = [w] /\
    reqtoken w = res_reqtoken result /\
    length (blocks_io disk w PREFIX_DETACH (detach w))
      = steps_detach result /\
    length (blocks_io disk w PREFIX_ATTACH (attach w))
      = steps_attach result /\
    exec (g_zmq_notification_interface node) disk
      (repeat EvRunner (item_steps w)) (worker', debug_log node')
    = ({| work := []; interrupted := false; runner := RunLoopTop |},
       debug_log node ++ LogEnqueueing w :: item_io disk w).
Proof.
  intros Hcall Hworker Hidle.
  apply game_sendupdates_returns in Hcall
    as (w & worker & Hwork & Hworker0 & Hworker' & Hlog & _).
  rewrite Hworker in Hworker0. injection Hworker0 as <-.
  apply game_sendupdates_work_returns in Hwork
    as (toBlock & fromIndex & toIndex & fromBi & toBi & ancestor & ancBi
        & det & att & notifier & _ & _ & _ & _ & _ & _ & _
        & _ & _ & _ & _ & Hzmq & -> & ->).
  unfold enqueue in Hworker', Hlog. simpl in Hworker', Hlog.
  eexists; eexists. split; [exact Hworker'|]. simpl.
  split; [reflexivity|]. split; [reflexivity|].
  unfold blocks_io. rewrite !length_map.
  split; [reflexivity|]. split; [reflexivity|].
  rewrite Hlog.
  assert (notify_all r = RunLoopTop) as ->
    by (destruct Hidle as [-> | ->]; reflexivity).
  rewrite (run_one_item _ notifier Hzmq disk).
  rewrite <- app_assoc. reflexivity.
Qed.

(** X11: for a call whose parameters have passed the checks of their
    number and types (none, or a command and a game id):
    [trackedgames] looks for the notifier before it looks at the
    command, so without one such a call throws [RPC_MISC_ERROR], the
    listing too; with one, a command other than "add" and "remove"
    throws [RPC_INVALID_PARAMETER] with the command in its message; a
    listing returns the tracked games; none of these changes the
    node. *)
Theorem trackedgames_errors node :
  (forall code msg params,
     GetGameBlocksNotifier (g_zmq_notification_interface node)
       = Throws code msg ->
     trackedgames node params = (Throws RPC_MISC_ERROR msg, node)) /\
  (forall notifier cmd game,
     GetGameBlocksNotifier (g_zmq_notification_interface node)
       = Returns notifier ->
     cmd <> "add" -> cmd <> "remove" ->
     trackedgames node (Some (cmd, game))
     = (Throws RPC_INVALID_PARAMETER
          ("invalid command for trackedgames: " +:+ cmd), node)) /\
  (forall notifier,
     GetGameBlocksNotifier (g_zmq_notification_interface node)
       = Returns notifier ->
     trackedgames node None = (Returns (Some (tracked notifier)), node)).
Proof.
  split; [|split].
  - intros code msg params Hzmq. unfold trackedgames. rewrite Hzmq.
    unfold GetGameBlocksNotifier in Hzmq.
    destruct (g_zmq_notification_interface node) as [iface|];
      [destruct (gameBlocksNotifier iface)|]; congruence.
  - intros notifier cmd game Hzmq Hadd Hremove. unfold trackedgames.
    rewrite Hzmq. rewrite !decide_False by assumption. reflexivity.
  - intros notifier Hzmq. unfold trackedgames. rewrite Hzmq. reflexivity.
Qed.

Lemma game_sendupdates_set_notifier fuel node request token n n' :
  GetGameBlocksNotifier (g_zmq_notification_interface node) = Returns n ->
  game_sendupdates fuel (set_notifier node n') request token
  = ((game_sendupdates fuel node request token).1,
     set_notifier (game_sendupdates fuel node request token).2 n').
Proof.
  intros Hzmq.
  assert (Hwork : game_sendupdates_work fuel (set_notifier node n') request
                    token = game_sendupdates_work fuel node request token).
  { unfold game_sendupdates_work, target_block. simpl. rewrite Hzmq.
    reflexivity. }
  unfold game_sendupdates. rewrite Hwork.
  destruct (game_sendupdates_work fuel node request token)
    as [[w result]| | | |]; simpl; try reflexivity.
  destruct (g_send_updates_worker node) as [worker|]; [|reflexivity].
  destruct (enqueue w worker) as [worker' out]. reflexivity.
Qed.

Lemma game_sendupdates_keeps_notifier fuel node request token :
  g_zmq_notification_interface (game_sendupdates fuel node request token).2
  = g_zmq_notification_interface node.
Proof.
  unfold game_sendupdates.
  destruct (game_sendupdates_work fuel node request token)
    as [[w result]| | | |]; try reflexivity.
  destruct (g_send_updates_worker node) as [worker|]; [|reflexivity].
  destruct (enqueue w worker) as [worker' out]. reflexivity.
Qed.

(** X12: [trackedgames] and [game_sendupdates] do not get in each
    other's way: made in either order on the same node, the two calls
    have the same outcomes and leave the same node. *)
Theorem trackedgames_game_sendupdates_commute fuel node request token params :
  (game_sendupdates fuel (trackedgames node params).2 request token).1
    = (game_sendupdates fuel node request token).1 /\
  (trackedgames (game_sendupdates fuel node request token).2 params).1
    = (trackedgames node params).1 /\
  (game_sendupdates fuel (trackedgames node params).2 request token).2
    = (trackedgames (game_sendupdates fuel node request token).2 params).2.
Proof.
  pose proof (game_sendupdates_keeps_notifier fuel node request token)
    as Hzmq.
  unfold trackedgames. rewrite Hzmq.
  destruct (GetGameBlocksNotifier (g_zmq_notification_interface node))
    as [n| | | |] eqn:Hn; simpl; try (repeat split; reflexivity).
  destruct params as [[cmd game]|]; simpl; [|repeat split; reflexivity].
  repeat case_decide; simpl;
    rewrite ?(game_sendupdates_set_notifier _ _ _ _ n) by exact Hn;
    repeat split; reflexivity.
Qed.

End HandlerAndWorker.

(** ** More on the worker *)

Section WorkerMore.
Variable zmq : option CZMQNotificationInterface.
Variable disk : positive -> option CBlock.

Lemma step_flag st ev :
  interrupted (step zmq disk st ev).1 =
  match ev with
  | EvInterrupt => true
  | _ => interrupted st.1
  end.
Proof.
  destruct st as [[wk intr r] io]. destruct ev as [w| | |]; simpl;
    try reflexivity.
  - unfold enqueue. simpl. destruct intr; reflexivity.
  - unfold run_step. simpl.
    destruct r as [| |w [|p todo]|w [|p todo]| |]; simpl;
      try reflexivity.
    + destruct wk; [destruct intr|]; reflexivity.
    + destruct (SendUpdatesOneBlock _ _ _ _ _ _); reflexivity.
    + destruct (SendUpdatesOneBlock _ _ _ _ _ _); reflexivity.
Qed.

Lemma step_rest_ok st ev :
  runner_at_rest_ok st.1 = true ->
  runner_at_rest_ok (step zmq disk st ev).1 = true.
Proof.
  destruct st as [[wk intr r] io]. unfold runner_at_rest_ok.
  destruct ev as [w| | |]; simpl.
  - unfold enqueue. simpl.
    destruct intr; simpl; [auto|].
    destruct r, wk; simpl; auto; discriminate.
  - destruct r, wk; simpl; auto; discriminate.
  - unfold run_step. simpl.
    destruct r as [| |w [|p todo]|w [|p todo]| |]; simpl; auto.
    + destruct wk; [destruct intr|]; reflexivity.
    + destruct (SendUpdatesOneBlock _ _ _ _ _ _); simpl; auto.
    + destruct (SendUpdatesOneBlock _ _ _ _ _ _); simpl; auto.
  - destruct r, wk; simpl; auto.
Qed.

Lemma exec_rest_ok evs :
  forall st, runner_at_rest_ok st.1 = true ->
    runner_at_rest_ok (exec zmq disk evs st).1 = true.
Proof.
  induction evs as [|ev evs IH]; intros st H; [exact H|].
  apply IH, step_rest_ok, H.
Qed.

Lemma exec_flag_clear evs :
  forall st, EvInterrupt ∉ evs -> interrupted st.1 = false ->
    interrupted (exec zmq disk evs st).1 = false.
Proof.
  induction evs as [|ev evs IH]; intros st Hno Hi; [exact Hi|].
  apply not_elem_of_cons in Hno as [Hev Hno].
  apply IH; [exact Hno|]. rewrite step_flag.
  destruct ev; congruence.
Qed.

(** X13: along any schedule, with or without a notifier, the runner is
    parked only while the queue is empty and the flag clear, so no
    wake-up is lost; and a runner woken for nothing checks, logs and
    parks again. *)
Theorem runner_parks_on_empty_queue_only :
  (forall evs,
     runner (exec zmq disk evs (new_SendUpdatesWorker, [])).1 = RunWaiting ->
     work (exec zmq disk evs (new_SendUpdatesWorker, [])).1 = [] /\
     interrupted (exec zmq disk evs (new_SendUpdatesWorker, [])).1 = false)
  /\
  (forall io,
     exec zmq disk [EvSpuriousWakeup; EvRunner]
       ({| work := []; interrupted := false; runner := RunWaiting |}, io)
     = ({| work := []; interrupted := false; runner := RunWaiting |},
        io ++ [LogQueueEmpty false; LogWaiting])).
Proof.
  split; [|reflexivity].
  intros evs Hwait.
  pose proof (exec_rest_ok evs (new_SendUpdatesWorker, []) eq_refl) as Hok.
  unfold runner_at_rest_ok in Hok. rewrite Hwait in Hok.
  destruct (work _); [|discriminate Hok].
  split; [reflexivity|]. apply negb_true_iff. exact Hok.
Qed.

(** X14: with the notifier set and without a call of [interrupt], the
    runner never leaves the loop of [run], whatever the schedule: the
    flag stays clear and the runner is at the head of the loop, parked,
    or inside one of the two [for] loops. *)
Theorem runner_needs_interrupt_to_exit notifier evs :
  GetGameBlocksNotifier zmq = Returns notifier ->
  EvInterrupt ∉ evs ->
  interrupted (exec zmq disk evs (new_SendUpdatesWorker, [])).1 = false /\
  runner_in_loop (runner (exec zmq disk evs (new_SendUpdatesWorker, [])).1)
  = true.
Proof.
  intros Hzmq Hno.
  pose proof (exec_flag_clear evs (new_SendUpdatesWorker, []) Hno eq_refl)
    as Hflag.
  pose proof (exec_rest_ok evs (new_SendUpdatesWorker, []) eq_refl) as Hok.
  pose proof (exec_not_thrown zmq notifier Hzmq disk evs
                (new_SendUpdatesWorker, []) eq_refl) as Hnt.
  split; [exact Hflag|].
  unfold runner_at_rest_ok in Hok. rewrite Hflag in Hok.
  destruct (runner (exec zmq disk evs (new_SendUpdatesWorker, [])).1);
    try reflexivity.
  - destruct (work _); discriminate Hok.
  - discriminate Hnt.
Qed.

Lemma step_queue_after_interrupt st ev :
  interrupted st.1 = true ->
  exists popped, work st.1 = popped ++ work (step zmq disk st ev).1.
Proof.
  destruct st as [[wk intr r] io]. simpl. intros ->.
  destruct ev as [w| | |]; simpl; try (exists []; reflexivity).
  unfold run_step. simpl.
  destruct r as [| |w [|p todo]|w [|p todo]| |]; simpl;
    try (exists []; reflexivity).
  - destruct wk as [|w rest]; [exists []; reflexivity|].
    exists [w]. reflexivity.
  - destruct (SendUpdatesOneBlock _ _ _ _ _ _); exists []; reflexivity.
  - destruct (SendUpdatesOneBlock _ _ _ _ _ _); exists []; reflexivity.
Qed.

(** X15: [interrupt] is one-shot: a second call changes nothing, no
    later action clears the flag, and from then on the queue only
    loses items at its front. *)
Theorem interrupt_is_final :
  (forall self, interrupt (interrupt self) = interrupt self) /\
  (forall evs st,
     interrupted st.1 = true ->
     interrupted (exec zmq disk evs st).1 = true /\
     exists popped, work st.1 = popped ++ work (exec zmq disk evs st).1).
Proof.
  split.
  - intros [wk intr r]. unfold interrupt. simpl. destruct r; reflexivity.
  - induction evs as [|ev evs IH]; intros st Hi.
    + split; [exact Hi|]. exists []. reflexivity.
    + assert (Hi' : interrupted (step zmq disk st ev).1 = true)
        by (rewrite step_flag; destruct ev; auto).
      destruct (IH _ Hi') as (Hflag & popped' & Hq').
      destruct (step_queue_after_interrupt st ev Hi) as (popped & Hq).
      split; [exact Hflag|].
      exists (popped ++ popped').
      change (exec zmq disk (ev :: evs) st)
        with (exec zmq disk evs (step zmq disk st ev)).
      rewrite Hq at 1. rewrite Hq' at 1. rewrite app_assoc. reflexivity.
Qed.

Lemma run_detach_unreadable code msg wk intr w p after blk before :
  GetGameBlocksNotifier zmq = Throws code msg ->
  disk p = Some blk ->
  Forall (fun q => disk q = None) before ->
  forall io,
    exec zmq disk (repeat EvRunner (S (length before)))
      ({| work := wk; interrupted := intr;
          runner := RunDetach w (before ++ p :: after) |}, io)
    = ({| work := wk; interrupted := intr; runner := RunThrown code msg |},
       io ++ map LogReadFailed before).
Proof.
  intros Hzmq Hp. induction 1 as [|q before Hq Hall IH]; intros io.
  - simpl. unfold run_step, SendUpdatesOneBlock. simpl.
    rewrite Hp, Hzmq. simpl. rewrite app_nil_r. reflexivity.
  - change (exec zmq disk (repeat EvRunner (S (length (q :: before))))
              ({| work := wk; interrupted := intr;
                  runner := RunDetach w ((q :: before) ++ p :: after) |},
               io))
      with (exec zmq disk (repeat EvRunner (S (length before)))
              (step zmq disk
                 ({| work := wk; interrupted := intr;
                     runner := RunDetach w (q :: before ++ p :: after) |},
                  io) EvRunner)).
    assert (Hstep :
      step zmq disk
        ({| work := wk; interrupted := intr;
            runner := RunDetach w (q :: before ++ p :: after) |}, io)
        EvRunner
      = ({| work := wk; interrupted := intr;
            runner := RunDetach w (before ++ p :: after) |},
         io ++ [LogReadFailed q])).
    { simpl. unfold run_step, SendUpdatesOneBlock. simpl.
      rewrite Hq. reflexivity. }
    rewrite Hstep, IH, <- app_assoc. reflexivity.
Qed.

Lemma run_attach_unreadable code msg wk intr w p after blk before :
  GetGameBlocksNotifier zmq = Throws code msg ->
  disk p = Some blk ->
  Forall (fun q => disk q = None) before ->
  forall io,
    exec zmq disk (repeat EvRunner (S (length before)))
      ({| work := wk; interrupted := intr;
          runner := RunAttach w (before ++ p :: after) |}, io)
    = ({| work := wk; interrupted := intr; runner := RunThrown code msg |},
       io ++ map LogReadFailed before).
Proof.
  intros Hzmq Hp. induction 1 as [|q before Hq Hall IH]; intros io.
  - simpl. unfold run_step, SendUpdatesOneBlock. simpl.
    rewrite Hp, Hzmq. simpl. rewrite app_nil_r. reflexivity.
  - change (exec zmq disk (repeat EvRunner (S (length (q :: before))))
              ({| work := wk; interrupted := intr;
                  runner := RunAttach w ((q :: before) ++ p :: after) |},
               io))
      with (exec zmq disk (repeat EvRunner (S (length before)))
              (step zmq disk
                 ({| work := wk; interrupted := intr;
                     runner := RunAttach w (q :: before ++ p :: after) |},
                  io) EvRunner)).
    assert (Hstep :
      step zmq disk
        ({| work := wk; interrupted := intr;
            runner := RunAttach w (q :: before ++ p :: after) |}, io)
        EvRunner
      = ({| work := wk; interrupted := intr;
            runner := RunAttach w (before ++ p :: after) |},
         io ++ [LogReadFailed q])).
    { simpl. unfold run_step, SendUpdatesOneBlock. simpl.
      rewrite Hq. reflexivity. }
    rewrite Hstep, IH, <- app_assoc. reflexivity.
Qed.

(** X16: with no notifier set, a block that can be read makes
    [GetGameBlocksNotifier] throw inside [SendUpdatesOneBlock], and the
    exception leaves [run] without any output for that block; the
    blocks before it that cannot be read have each given their log
    line, and no notification has been sent. *)
Theorem runner_dies_without_notifier code msg :
  GetGameBlocksNotifier zmq = Throws code msg ->
  (forall wk intr w p todo blk,
     disk p = Some blk ->
     run_step zmq disk
       {| work := wk; interrupted := intr; runner := RunDetach w (p :: todo) |}
     = ({| work := wk; interrupted := intr; runner := RunThrown code msg |},
        []) /\
     run_step zmq disk
       {| work := wk; interrupted := intr; runner := RunAttach w (p :: todo) |}
     = ({| work := wk; interrupted := intr; runner := RunThrown code msg |},
        [])) /\
  (forall wk intr w before p after blk io,
     Forall (fun q => disk q = None) before ->
     disk p = Some blk ->
     exec zmq disk (repeat EvRunner (S (length before)))
       ({| work := wk; interrupted := intr;
           runner := RunDetach w (before ++ p :: after) |}, io)
     = ({| work := wk; interrupted := intr; runner := RunThrown code msg |},
        io ++ map LogReadFailed before) /\
     exec zmq disk (repeat EvRunner (S (length before)))
       ({| work := wk; interrupted := intr;
           runner := RunAttach w (before ++ p :: after) |}, io)
     = ({| work := wk; interrupted := intr; runner := RunThrown code msg |},
        io ++ map LogReadFailed before)).
Proof.
  intros Hzmq. split.
  - intros wk intr w p todo blk Hp. unfold run_step, SendUpdatesOneBlock.
    simpl. rewrite Hp, Hzmq. split; reflexivity.
  - intros wk intr w before p after blk io Hall Hp. split.
    + exact (run_detach_unreadable code msg wk intr w p after blk before
               Hzmq Hp Hall io).
    + exact (run_attach_unreadable code msg wk intr w p after blk before
               Hzmq Hp Hall io).
Qed.

End WorkerMore.

Section WorkerOutput.
Variable zmq : option CZMQNotificationInterface.
Variable notifier : ZMQGameBlocksNotifier.
Hypothesis zmq_set : GetGameBlocksNotifier zmq = Returns notifier.
Variable disk : positive -> option CBlock.

Lemma blocks_io_notification w prefix l games prefix' token blk pindex :
  In (SendBlockNotifications games prefix' token blk pindex)
    (blocks_io disk w prefix l) ->
  games = trackedGames w /\ prefix' = prefix /\ token = reqtoken w /\
  disk pindex = Some blk /\ In pindex l.
Proof.
  unfold blocks_io. intros Hin. apply in_map_iff in Hin as (p & He & Hp).
  destruct (disk p) as [b|] eqn:Hdisk; [|discriminate He].
  injection He as <- <- <- <- <-. auto.
Qed.

Lemma blocks_io_read_failed w prefix l pindex :
  In (LogReadFailed pindex) (blocks_io disk w prefix l) ->
  disk pindex = None /\ In pindex l.
Proof.
  unfold blocks_io. intros Hin. apply in_map_iff in Hin as (p & He & Hp).
  destruct (disk p) as [b|] eqn:Hdisk; [discriminate He|].
  injection He as <-. auto.
Qed.

Lemma exec_output_from_items evs e :
  In e (exec zmq disk evs (new_SendUpdatesWorker, [])).2 ->
  is_dispatch e = true ->
  exists w, In w (accepted false evs) /\ In e (item_io disk w).
Proof.
  intros Hin Hd.
  pose proof (exec_expected_io zmq notifier zmq_set disk evs
                (new_SendUpdatesWorker, [])) as Hio.
  simpl in Hio. apply in_flat_map. rewrite <- Hio.
  unfold expected_io. apply in_or_app. left.
  apply filter_In. auto.
Qed.

(** X17: along any schedule the worker sends a notification only for a
    block of an item that [enqueue] took in, under that item's games
    and token and the prefix of the list the block is in, with the
    block as read from disk; and it logs a failed read only for such a
    block that cannot be read. *)
Theorem worker_sends_only_what_was_queued evs :
  (forall games prefix token blk pindex,
     In (SendBlockNotifications games prefix token blk pindex)
       (exec zmq disk evs (new_SendUpdatesWorker, [])).2 ->
     exists w,
       In w (accepted false evs) /\
       games = trackedGames w /\ token = reqtoken w /\
       disk pindex = Some blk /\
       In pindex (match prefix with
                  | PREFIX_DETACH => detach w
                  | PREFIX_ATTACH => attach w
                  end)) /\
  (forall pindex,
     In (LogReadFailed pindex)
       (exec zmq disk evs (new_SendUpdatesWorker, [])).2 ->
     exists w,
       In w (accepted false evs) /\ disk pindex = None /\
       In pindex (detach w ++ attach w)).
Proof.
  split.
  - intros games prefix token blk pindex Hin.
    destruct (exec_output_from_items evs _ Hin eq_refl) as (w & Hw & He).
    exists w. split; [exact Hw|].
    unfold item_io in He. destruct He as [He|He]; [discriminate He|].
    apply in_app_or in He as [He|He];
      [|apply in_app_or in He as [He|[He|[]]]; [|discriminate He]];
      apply blocks_io_notification in He as (-> & -> & -> & Hd & Hp); auto.
  - intros pindex Hin.
    destruct (exec_output_from_items evs _ Hin eq_refl) as (w & Hw & He).
    exists w. split; [exact Hw|].
    unfold item_io in He. destruct He as [He|He]; [discriminate He|].
    apply in_app_or in He as [He|He];
      [|apply in_app_or in He as [He|[He|[]]]; [|discriminate He]];
      apply blocks_io_read_failed in He as (Hd & Hp);
      (split; [exact Hd|]); apply in_or_app; auto.
Qed.

End WorkerOutput.

(** ** The text of a work item *)

Lemma string_app_assoc (s1 s2 s3 : string) :
  (s1 +:+ s2) +:+ s3 = s1 +:+ s2 +:+ s3.
Proof.
  induction s1 as [|a s1 IH]; [reflexivity|].
  change (String a (s1 +:+ s2) +:+ s3 = String a (s1 +:+ s2 +:+ s3)).
  change (String a ((s1 +:+ s2) +:+ s3) = String a (s1 +:+ s2 +:+ s3)).
  rewrite IH. reflexivity.
Qed.

Lemma string_app_nil_r (s : string) : s +:+ "" = s.
Proof.
  induction s as [|a s IH]; [reflexivity|].
  change (String a (s +:+ "") = String a s). rewrite IH. reflexivity.
Qed.

Lemma str_games_concat games :
  forall res,
    str_games games true res = res +:+ String.concat "|" games /\
    str_games games false res
    = res +:+ match games with
              | [] => ""
              | _ :: _ => "|" +:+ String.concat "|" games
              end.
Proof.
  induction games as [|g rest IH]; intros res; simpl.
  - rewrite string_app_nil_r. split; reflexivity.
  - destruct (IH (res +:+ g)) as [_ IH1].
    destruct (IH ((res +:+ "|") +:+ g)) as [_ IH2].
    rewrite IH1, IH2. destruct rest as [|g' rest]; simpl;
      rewrite ?string_app_nil_r, ?string_app_assoc; split; reflexivity.
Qed.

Lemma str_concat w :
  str w = "work(games: "
          +:+ String.concat "|" (games_in_order (trackedGames w))
          +:+ ", " +:+ pretty (length (detach w)) +:+ " detaches, "
          +:+ pretty (length (attach w)) +:+ " attaches)".
Proof.
  unfold str.
  rewrite (proj1 (str_games_concat _ _)), !string_app_assoc. reflexivity.
Qed.

(** X18: the text of a work item names its games once each, in
    ascending order, with a bar between two games and none before the
    first or after the last, and then the lengths of its two lists; the
    token and the blocks do not show. *)
Theorem str_lists_games_and_counts :
  (forall w,
     str w = "work(games: "
             +:+ String.concat "|" (games_in_order (trackedGames w))
             +:+ ", " +:+ pretty (length (detach w)) +:+ " detaches, "
             +:+ pretty (length (attach w)) +:+ " attaches)") /\
  (forall games : gset string,
     Sorted String.le (games_in_order games) /\
     NoDup (games_in_order games) /\
     forall g, g ∈ games_in_order games <-> g ∈ games).
Proof.
  split.
  - exact str_concat.
  - intros games. unfold games_in_order.
    pose proof (merge_sort_Permutation String.le (elements games)) as Hp.
    split; [apply Sorted_merge_sort; apply _|]. split.
    + rewrite Hp. apply NoDup_elements.
    + intros g. rewrite Hp. apply elem_of_elements.
Qed.

(** X19: the text of the item that a returning [game_sendupdates] hands
    to [enqueue] shows the game of the request and the two counts of
    the result. *)
Theorem str_of_queued_item `{Ext : External} fuel node request token
    result node' :
  game_sendupdates fuel node request token = (Returns result, node') ->
  exists w worker,
    g_send_updates_worker node = Some worker /\
    g_send_updates_worker node' = Some (enqueue w worker).1 /\
    str w = "work(games: " +:+ gameid request +:+ ", "
            +:+ pretty (steps_detach result) +:+ " detaches, "
            +:+ pretty (steps_attach result) +:+ " attaches)".
Proof.
  intros Hcall.
  apply game_sendupdates_returns in Hcall
    as (w & worker & Hwork & Hworker & Hworker' & _).
  apply game_sendupdates_work_returns in Hwork
    as (toBlock & fromIndex & toIndex & fromBi & toBi & ancestor & ancBi
        & det & att & notifier & _ & _ & _ & _ & _ & _ & _
        & _ & _ & _ & _ & _ & -> & ->).
  eexists; exists worker.
  split; [exact Hworker|]. split; [exact Hworker'|].
  rewrite str_concat. simpl.
  unfold games_in_order. rewrite elements_singleton. reflexivity.
Qed.

(** ** The further properties on the example chain *)

Lemma GetDetachSequence_no_repeats_witness :
  NoDup [6%positive; 5%positive] /\
  forall x, x ∈ [6%positive; 5%positive] -> is_Some (example_index !! x).
Proof.
  exact (@GetDetachSequence_no_repeats (spec_external 8) example_index 10
           (Some 6%positive) (Some 3%positive) [6%positive; 5%positive]
           example_attach_walk).
Defined.

Lemma GetDetachSequence_ends_within_index_witness :
  exists l,
    WalkToAncestor example_index (Some 1%positive) (Some 6%positive) l /\
    length l <= size example_index /\
    forall fuel, size example_index <= fuel ->
      GetDetachSequence (Ext := spec_external 8) fuel example_index
        (Some 6%positive) (Some 1%positive) =
      if forallb (block_has_data (Ext := spec_external 8) example_index) l
      then Returns l
      else Throws RPC_DATABASE_ERROR "detached block has no data".
Proof.
  apply (@GetDetachSequence_ends_within_index (spec_external 8)
           example_index (Some 6%positive) (Some 1%positive)).
  example_reaches.
Defined.

Lemma GetDetachSequence_past_the_root_witness :
  GetDetachSequence (Ext := spec_external 8) 5 example_index
    (Some 4%positive) (Some 6%positive) = AssertionFailed.
Proof.
  apply (@GetDetachSequence_past_the_root (spec_external 8) example_index
           (Some 4%positive) 6%positive
           [4%positive; 3%positive; 2%positive; 1%positive] 5).
  - example_walk.
  - intros H.
    repeat (apply elem_of_cons in H as [H|H]; [discriminate H|]).
    inversion H.
  - simpl; lia.
Defined.

Lemma GetDetachSequence_fails_fast_witness :
  GetDetachSequence (Ext := spec_external 8) 2 example_index_pruned
    (Some 6%positive) (Some 4%positive)
  = Throws RPC_DATABASE_ERROR "detached block has no data".
Proof.
  apply (@GetDetachSequence_fails_fast (spec_external 8)
           example_index_pruned (Some 6%positive) (Some 4%positive)
           [6%positive] 5%positive (example_block 104 (Some 3%positive) 5) 2).
  - example_walk.
  - repeat constructor; discriminate.
  - discriminate.
  - vm_compute; reflexivity.
  - vm_compute; reflexivity.
  - simpl; lia.
Defined.

Lemma game_sendupdates_block_not_found_witness :
  game_sendupdates (Ext := spec_external 8) 10 (example_node example_index)
    example_request_unknown "0f"
  = (Throws RPC_INVALID_ADDRESS_OR_KEY "fromblock not found",
     example_node example_index).
Proof.
  apply (proj1 (@game_sendupdates_block_not_found (spec_external 8) 10
                  (example_node example_index) example_request_unknown
                  "0f" 105%N eq_refl)).
  vm_compute; reflexivity.
Defined.

Lemma game_sendupdates_frame_witness :
  (game_sendupdates (Ext := spec_external 8) 10
     (example_node example_index_pruned) example_request "0f").2
  = example_node example_index_pruned.
Proof.
  apply (@game_sendupdates_frame (spec_external 8) 10
           (example_node example_index_pruned) example_request "0f").
  intros result. rewrite example_call_pruned. discriminate.
Defined.

Lemma game_sendupdates_without_notifier_witness :
  RPC_MISC_ERROR = RPC_MISC_ERROR /\
  game_sendupdates (Ext := spec_external 8) 10 example_node_no_zmq
    example_request "0f"
  = (Throws RPC_MISC_ERROR "ZMQ notifications are disabled",
     example_node_no_zmq).
Proof.
  apply (@game_sendupdates_without_notifier (spec_external 8) 10
           example_node_no_zmq example_request "0f"
           105%N 4%positive 6%positive
           (example_block 103 (Some 3%positive) 29)
           (example_block 105 (Some 5%positive) 29)
           3%positive (example_block 102 (Some 2%positive) 13)
           [4%positive] [6%positive; 5%positive]).
  - reflexivity.
  - vm_compute; reflexivity.
  - vm_compute; reflexivity.
  - vm_compute; reflexivity.
  - vm_compute; reflexivity.
  - vm_compute; reflexivity.
  - vm_compute; reflexivity.
  - vm_compute; reflexivity.
  - vm_compute; reflexivity.
  - example_walk.
  - example_walk.
  - simpl; lia.
  - simpl; lia.
  - vm_compute; reflexivity.
  - vm_compute; reflexivity.
  - reflexivity.
Defined.

Lemma game_sendupdates_default_toblock_witness :
  game_sendupdates (Ext := spec_external 8) 10 (example_node example_index)
    {| gameid := "b"; fromblock := 103; toblock := None |} "0f"
  = game_sendupdates (Ext := spec_external 8) 10
      (example_node example_index) example_request "0f".
Proof.
  apply (@game_sendupdates_default_toblock (spec_external 8) 10
           (example_node example_index) "b" 103%N "0f" 6%positive
           (example_block 105 (Some 5%positive) 29)).
  - reflexivity.
  - vm_compute; reflexivity.
Defined.

Lemma game_sendupdates_straight_line_witness :
  steps_detach
    {| res_toblock := 105; res_ancestor := 102; res_reqtoken := "0f";
       steps_detach := 0; steps_attach := 2 |} = 0.
Proof.
  apply (proj1 (@game_sendupdates_straight_line (spec_external 8) 10
                  (example_node example_index) example_request_forward "0f"
                  {| res_toblock := 105; res_ancestor := 102;
                     res_reqtoken := "0f";
                     steps_detach := 0; steps_attach := 2 |}
                  (game_sendupdates (Ext := spec_external 8) 10
                     (example_node example_index) example_request_forward
                     "0f").2
                  3%positive 6%positive
                  ltac:(vm_compute; reflexivity)
                  ltac:(vm_compute; reflexivity)
                  ltac:(vm_compute; reflexivity))).
  vm_compute; reflexivity.
Defined.

Lemma game_sendupdates_then_run_witness :
  exists w worker',
    g_send_updates_worker example_node_after = Some worker' /\
    work worker' = [w] /\
    reqtoken w = res_reqtoken example_result /\
    length (blocks_io example_disk w PREFIX_DETACH (detach w))
      = steps_detach example_result /\
    length (blocks_io example_disk w PREFIX_ATTACH (attach w))
      = steps_attach example_result /\
    exec example_zmq example_disk (repeat EvRunner (item_steps w))
      (worker', debug_log example_node_after)
    = ({| work := []; interrupted := false; runner := RunLoopTop |},
       [] ++ LogEnqueueing w :: item_io example_disk w).
Proof.
  exact (@game_sendupdates_then_run (spec_external 8) 10
           (example_node example_index) example_request "0f"
           example_result example_node_after example_disk RunLoopTop
           example_call eq_refl (or_introl eq_refl)).
Defined.

Lemma trackedgames_errors_witness :
  trackedgames example_node_no_zmq None
  = (Throws RPC_MISC_ERROR "ZMQ notifications are disabled",
     example_node_no_zmq) /\
  trackedgames (example_node example_index) (Some ("drop", "b"))
  = (Throws RPC_INVALID_PARAMETER "invalid command for trackedgames: drop",
     example_node example_index) /\
  trackedgames (example_node example_index) None
  = (Returns (Some {[ "a" ]}), example_node example_index).
Proof.
  split; [|split].
  - exact (proj1 (trackedgames_errors example_node_no_zmq)
             RPC_MISC_ERROR "ZMQ notifications are disabled" None eq_refl).
  - apply (proj1 (proj2 (trackedgames_errors (example_node example_index)))
             {| tracked := {[ "a" ]} |} "drop" "b" eq_refl); discriminate.
  - exact (proj2 (proj2 (trackedgames_errors (example_node example_index)))
             {| tracked := {[ "a" ]} |} eq_refl).
Defined.

Lemma runner_parks_on_empty_queue_only_witness :
  runner (exec example_zmq example_disk [EvRunner]
            (new_SendUpdatesWorker, [])).1 = RunWaiting /\
  work (exec example_zmq example_disk [EvRunner]
          (new_SendUpdatesWorker, [])).1 = [] /\
  interrupted (exec example_zmq example_disk [EvRunner]
                 (new_SendUpdatesWorker, [])).1 = false.
Proof.
  split; [reflexivity|].
  exact (proj1 (runner_parks_on_empty_queue_only example_zmq example_disk)
           [EvRunner] eq_refl).
Defined.

Lemma runner_needs_interrupt_to_exit_witness :
  GetGameBlocksNotifier example_zmq = Returns {| tracked := {[ "a" ]} |} /\
  interrupted (exec example_zmq example_disk
                 (EvEnqueue example_work :: repeat EvRunner 9)
                 (new_SendUpdatesWorker, [])).1 = false /\
  runner_in_loop
    (runner (exec example_zmq example_disk
               (EvEnqueue example_work :: repeat EvRunner 9)
               (new_SendUpdatesWorker, [])).1) = true.
Proof.
  split; [reflexivity|].
  apply (runner_needs_interrupt_to_exit example_zmq example_disk
           {| tracked := {[ "a" ]} |}
           (EvEnqueue example_work :: repeat EvRunner 9) eq_refl).
  simpl. intros H.
  repeat (apply elem_of_cons in H as [H|H]; [discriminate H|]).
  inversion H.
Defined.

Lemma interrupt_is_final_witness :
  interrupted (exec example_zmq example_disk
                 [EvEnqueue example_work; EvRunner; EvSpuriousWakeup]
                 (interrupt new_SendUpdatesWorker, [])).1 = true /\
  exists popped,
    work (interrupt new_SendUpdatesWorker, @nil IO).1
    = popped ++ work (exec example_zmq example_disk
                        [EvEnqueue example_work; EvRunner; EvSpuriousWakeup]
                        (interrupt new_SendUpdatesWorker, [])).1.
Proof.
  exact (proj2 (interrupt_is_final example_zmq example_disk)
           [EvEnqueue example_work; EvRunner; EvSpuriousWakeup]
           (interrupt new_SendUpdatesWorker, []) eq_refl).
Defined.

Lemma runner_dies_without_notifier_witness :
  GetGameBlocksNotifier None
    = Throws RPC_MISC_ERROR "ZMQ notifications are disabled" /\
  example_disk 4%positive = None /\
  exec None example_disk (repeat EvRunner 2)
    ({| work := []; interrupted := false;
        runner := RunDetach example_work [4; 5; 6]%positive |}, [])
  = ({| work := []; interrupted := false;
        runner := RunThrown RPC_MISC_ERROR
                    "ZMQ notifications are disabled" |},
     [LogReadFailed 4%positive]).
Proof.
  split; [reflexivity|]. split; [reflexivity|].
  apply (proj2 (runner_dies_without_notifier None example_disk
                  RPC_MISC_ERROR "ZMQ notifications are disabled" eq_refl)
           [] false example_work [4%positive] 5%positive
           [6%positive] {| blockData := 5 |} []).
  - apply Forall_cons_2; [reflexivity | apply Forall_nil_2].
  - reflexivity.
Defined.

Lemma worker_sends_only_what_was_queued_witness :
  exists w,
    In w (accepted false example_schedule) /\
    ({[ "b" ]} : gset string) = trackedGames w /\ "0f" = reqtoken w /\
    example_disk 5%positive = Some {| blockData := 5 |} /\
    In 5%positive (attach w).
Proof.
  apply (proj1 (worker_sends_only_what_was_queued example_zmq
                  {| tracked := {[ "a" ]} |} eq_refl example_disk
                  example_schedule)
           {[ "b" ]} PREFIX_ATTACH "0f" {| blockData := 5 |} 5%positive).
  rewrite example_run. simpl. auto 10.
Defined.

Lemma str_of_queued_item_witness :
  exists w worker,
    g_send_updates_worker (example_node example_index) = Some worker /\
    g_send_updates_worker example_node_after = Some (enqueue w worker).1 /\
    str w = "work(games: " +:+ gameid example_request +:+ ", "
            +:+ pretty (steps_detach example_result) +:+ " detaches, "
            +:+ pretty (steps_attach example_result) +:+ " attaches)".
Proof.
  exact (@str_of_queued_item (spec_external 8) 10
           (example_node example_index) example_request "0f"
           example_result example_node_after example_call).
Defined.

Example example_str :
  str example_work = "work(games: b, 1 detaches, 2 attaches)".
Proof. vm_compute. reflexivity. Qed.

Example example_str_two_games :
  str {| reqtoken := "0f"; detach := []; attach := [];
         trackedGames := {[ "huc"; "b" ]} |}
  = "work(games: b|huc, 0 detaches, 0 attaches)".
Proof. vm_compute. reflexivity. Qed.

(** ** The assertions of the handler *)

(** X20: the two [assert]s of [game_sendupdates]: with both blocks found
    and their data in place, no common ancestor stops the call before
    any walk, whatever the notifier; and a call that has built its item
    stops when there is no worker.  Either way the node stays as it
    is. *)
Theorem game_sendupdates_assertions `{Ext : External} fuel node request
    token toBlock fromIndex toIndex fromBi toBi :
  target_block node request = Returns toBlock ->
  mapBlockIndex node !! fromblock request = Some fromIndex ->
  mapBlockIndex node !! toBlock = Some toIndex ->
  blockIndex node !! fromIndex = Some fromBi -> have_data fromBi = true ->
  blockIndex node !! toIndex = Some toBi -> have_data toBi = true ->
  (LastCommonAncestor (blockIndex node) fromIndex toIndex = None ->
   game_sendupdates fuel node request token = (AssertionFailed, node)) /\
  (forall w result,
     game_sendupdates_work fuel node request token = Returns (w, result) ->
     g_send_updates_worker node = None ->
     game_sendupdates fuel node request token = (AssertionFailed, node)).
Proof.
  intros Htarget Hfrom Hto HfromBi HfromData HtoBi HtoData. split.
  - intros Hanc. unfold game_sendupdates, game_sendupdates_work.
    rewrite Htarget. simpl. rewrite Hfrom, Hto.
    apply deref_returns in HfromBi, HtoBi.
    rewrite HfromBi. simpl. rewrite HfromData. simpl.
    rewrite HtoBi. simpl. rewrite HtoData. simpl.
    rewrite Hanc. reflexivity.
  - intros w result Hwork Hworker. unfold game_sendupdates.
    rewrite Hwork, Hworker. reflexivity.
Qed.

Lemma game_sendupdates_assertions_witness :
  game_sendupdates (Ext := spec_external 8) 10 example_node_no_worker
    example_request "0f" = (AssertionFailed, example_node_no_worker).
Proof.
  apply (proj2 (@game_sendupdates_assertions (spec_external 8) 10
                  example_node_no_worker example_request "0f"
                  105%N 4%positive 6%positive
                  (example_block 103 (Some 3%positive) 29)
                  (example_block 105 (Some 5%positive) 29)
                  eq_refl
                  ltac:(vm_compute; reflexivity)
                  ltac:(vm_compute; reflexivity)
                  ltac:(vm_compute; reflexivity)
                  ltac:(vm_compute; reflexivity)
                  ltac:(vm_compute; reflexivity)
                  ltac:(vm_compute; reflexivity))
           example_work example_result).
  - vm_compute; reflexivity.
  - reflexivity.
Defined.
